(** * The debug-bridge scripts of react-native-debugger, embedded in Rocq

    The development follows [scripts/execute_in_app.py] and
    [scripts/read_logs.py]: the target resolver [resolve_app], the two
    RemoteObject decoders [format_result] and [format_remote_object], and the
    callback-driven sessions [execute_in_app] and [read_logs].

    Python values that reach this code all come out of [json.loads], so one
    type [json] stands for them.  Exceptions are explicit ([pyres]); the
    closure variables of a session ([result], [runtime_enabled], [logs], the
    socket) are the fields of a state record that the callbacks thread. *)

From Stdlib Require Import Bool List String Ascii ZArith Lia DecimalString.
Import ListNotations.
Open Scope string_scope.
Open Scope Z_scope.
Set Warnings "-register-all".

(** ** Python values *)

Module Py.

(** A float is kept as the text [repr] gives for it ("1.0", "-0.0", "nan",
    "inf", "1e+100"): [repr] is canonical on floats, and the code only prints
    floats, tests their truth value and compares them with 1 and 2.
    A [str] is kept as a Rocq [string], one character per code point (code
    points up to 255). *)
Inductive json : Type :=
| JNull
| JBool (b : bool)
| JInt (n : Z)
| JFloat (repr : string)
| JStr (s : string)
| JList (items : list json)
| JDict (fields : list (string * json)).

(** A [dict] keeps its insertion order, which [json.dumps] and [repr] show. *)
Definition dict := list (string * json).

Inductive exn : Type :=
| JSONDecodeError
| AttributeError
| TypeError
| KeyError
| IndexError
| RecursionError
| ValueError
| UnicodeDecodeError
| OverflowError.

Inductive pyres (A : Type) : Type :=
| Ok (a : A)
| Raise (e : exn).
Arguments Ok {A} a.
Arguments Raise {A} e.

Definition bind {A B} (m : pyres A) (k : A -> pyres B) : pyres B :=
  match m with
  | Ok a => k a
  | Raise e => Raise e
  end.

Declare Scope py_scope.
Delimit Scope py_scope with py.
Notation "x <- m ;; k" := (bind m (fun x => k))
  (at level 61, m at next level, right associativity) : py_scope.
Open Scope py_scope.

Fixpoint mapM {A B} (f : A -> pyres B) (l : list A) : pyres (list B) :=
  match l with
  | [] => Ok []
  | a :: l' => b <- f a ;; bs <- mapM f l' ;; Ok (b :: bs)
  end.

(** *** Dictionaries *)

Fixpoint lookup (k : string) (d : dict) : option json :=
  match d with
  | [] => None
  | (k', v) :: d' => if String.eqb k k' then Some v else lookup k d'
  end.

(** [k in d] *)
Definition contains (k : string) (d : dict) : bool :=
  match lookup k d with Some _ => true | None => false end.

(** [d.get(k)] *)
Definition get (k : string) (d : dict) : json :=
  match lookup k d with Some v => v | None => JNull end.

(** [d.get(k, dflt)] *)
Definition get_default (k : string) (dflt : json) (d : dict) : json :=
  match lookup k d with Some v => v | None => dflt end.

(** *** Operations on arbitrary values *)

(** The receiver of [.get]: only a dict has the method. *)
Definition as_dict (v : json) : pyres dict :=
  match v with
  | JDict d => Ok d
  | _ => Raise AttributeError
  end.

(** [bool(v)] *)
Definition truthy (v : json) : bool :=
  match v with
  | JNull => false
  | JBool b => b
  | JInt n => negb (n =? 0)
  | JFloat r => negb (String.eqb r "0.0" || String.eqb r "-0.0")
  | JStr s => negb (String.eqb s "")
  | JList l => match l with [] => false | _ => true end
  | JDict d => match d with [] => false | _ => true end
  end.

(** [v == s] for a [str] constant [s] *)
Definition eq_str (v : json) (s : string) : bool :=
  match v with
  | JStr t => String.eqb t s
  | _ => false
  end.

(** Text of a non-negative integer, and of an integer. *)
Definition str_of_Z (n : Z) : string := NilZero.string_of_int (Z.to_int n).

(** [v == n] for an [int] constant [n]: [True == 1] and [1.0 == 1] hold in
    Python.  The float case compares with the [repr] of the integral float,
    which is the integer's digits followed by ".0" for the constants used
    here. *)
Definition eq_int (v : json) (n : Z) : bool :=
  match v with
  | JInt m => m =? n
  | JBool b => (if b then 1 else 0) =? n
  | JFloat r => String.eqb r (str_of_Z n ++ ".0")
  | _ => false
  end.

(** [needle in hay] on two [str] *)
Fixpoint substring_in (needle hay : string) : bool :=
  prefix needle hay ||
  match hay with
  | EmptyString => false
  | String _ hay' => substring_in needle hay'
  end.

(** [k in v] for a [str] constant [k] *)
Definition py_in (k : string) (v : json) : pyres bool :=
  match v with
  | JDict d => Ok (contains k d)
  | JList l => Ok (existsb (fun x => eq_str x k) l)
  | JStr s => Ok (substring_in k s)
  | _ => Raise TypeError
  end.

(** [v[k]] for a [str] constant [k] *)
Definition subscript (v : json) (k : string) : pyres json :=
  match v with
  | JDict d => match lookup k d with Some x => Ok x | None => Raise KeyError end
  | _ => Raise TypeError
  end.

(** [v[0]] *)
Definition first_item (v : json) : pyres json :=
  match v with
  | JList (x :: _) => Ok x
  | JStr (String c _) => Ok (JStr (String c EmptyString))
  | JList [] | JStr EmptyString => Raise IndexError
  | JDict _ => Raise KeyError
  | _ => Raise TypeError
  end.

(** The items [for x in v] visits. *)
Definition iterate (v : json) : pyres (list json) :=
  match v with
  | JList l => Ok l
  | JDict d => Ok (map (fun kv => JStr (fst kv)) d)
  | JStr s => Ok (map (fun c => JStr (String c EmptyString)) (list_ascii_of_string s))
  | _ => Raise TypeError
  end.

(** *** Text of values: [str], [repr] and [json.dumps] *)

Definition dquote : ascii := ascii_of_nat 34.
Definition squote : ascii := ascii_of_nat 39.
Definition backslash : ascii := ascii_of_nat 92.
Definition newline : ascii := ascii_of_nat 10.

Definition chr (c : ascii) : string := String c EmptyString.

Definition hex_digit (n : nat) : ascii :=
  if Nat.ltb n 10 then ascii_of_nat (48 + n) else ascii_of_nat (87 + n).

(** Two lower-case hexadecimal digits of a code point below 256. *)
Definition hex2 (c : ascii) : string :=
  let n := nat_of_ascii c in
  String (hex_digit (Nat.div n 16)) (chr (hex_digit (Nat.modulo n 16))).

Fixpoint join (sep : string) (l : list string) : string :=
  match l with
  | [] => ""
  | [s] => s
  | s :: l' => s ++ sep ++ join sep l'
  end.

Fixpoint spaces (n : nat) : string :=
  match n with
  | O => ""
  | S n' => String " " (spaces n')
  end.

Fixpoint flat_map_str (f : ascii -> string) (s : string) : string :=
  match s with
  | EmptyString => ""
  | String c s' => f c ++ flat_map_str f s'
  end.

Fixpoint mem_char (c : ascii) (s : string) : bool :=
  match s with
  | EmptyString => false
  | String c' s' => Ascii.eqb c c' || mem_char c s'
  end.

(** [str.isprintable] on one code point below 256. *)
Definition printable (c : ascii) : bool :=
  let n := nat_of_ascii c in
  (Nat.leb 32 n && Nat.leb n 126) || (Nat.leb 161 n && negb (Nat.eqb n 173)).

(** [repr] of a [str]: single quotes unless the text has one and no double
    quote. *)
Definition repr_char (quote c : ascii) : string :=
  let n := nat_of_ascii c in
  if Ascii.eqb c quote || Ascii.eqb c backslash then String backslash (chr c)
  else if Nat.eqb n 9 then String backslash "t"
  else if Nat.eqb n 10 then String backslash "n"
  else if Nat.eqb n 13 then String backslash "r"
  else if printable c then chr c
  else String backslash (String "x" (hex2 c)).

Definition repr_str (s : string) : string :=
  let quote := if mem_char squote s && negb (mem_char dquote s)
               then dquote else squote in
  String quote (flat_map_str (repr_char quote) s ++ chr quote).

Fixpoint repr (v : json) : string :=
  match v with
  | JNull => "None"
  | JBool true => "True"
  | JBool false => "False"
  | JInt n => str_of_Z n
  | JFloat r => r
  | JStr s => repr_str s
  | JList l => "[" ++ join ", " (map repr l) ++ "]"
  | JDict d =>
      "{" ++ join ", " (map (fun kv => let '(k, x) := kv in
                                       repr_str k ++ ": " ++ repr x) d) ++ "}"
  end.

(** [str(v)], which is also what an f-string field shows. *)
Definition str (v : json) : string :=
  match v with
  | JStr s => s
  | _ => repr v
  end.

(** [json.encoder.py_encode_basestring_ascii] *)
Definition escape_ascii (c : ascii) : string :=
  let n := nat_of_ascii c in
  if Ascii.eqb c dquote || Ascii.eqb c backslash then String backslash (chr c)
  else if Nat.eqb n 10 then String backslash "n"
  else if Nat.eqb n 13 then String backslash "r"
  else if Nat.eqb n 9 then String backslash "t"
  else if Nat.eqb n 8 then String backslash "b"
  else if Nat.eqb n 12 then String backslash "f"
  else if Nat.leb 32 n && Nat.leb n 126 then chr c
  else String backslash ("u00" ++ hex2 c).

Definition encode_basestring_ascii (s : string) : string :=
  String dquote (flat_map_str escape_ascii s ++ chr dquote).

(** [json.encoder.floatstr] with [allow_nan] *)
Definition floatstr (r : string) : string :=
  if String.eqb r "nan" then "NaN"
  else if String.eqb r "inf" then "Infinity"
  else if String.eqb r "-inf" then "-Infinity"
  else r.

Definition newline_indent (indent level : nat) : string :=
  String newline (spaces (indent * level)).

(** [json.dumps(v, indent=indent)], at nesting depth [level]: the item
    separator is "," and the key separator ": ". *)
Fixpoint dumps_at (indent level : nat) (v : json) : string :=
  match v with
  | JNull => "null"
  | JBool true => "true"
  | JBool false => "false"
  | JInt n => str_of_Z n
  | JFloat r => floatstr r
  | JStr s => encode_basestring_ascii s
  | JList [] => "[]"
  | JList l =>
      "[" ++ newline_indent indent (S level)
          ++ join ("," ++ newline_indent indent (S level))
                  (map (dumps_at indent (S level)) l)
          ++ newline_indent indent level ++ "]"
  | JDict [] => "{}"
  | JDict d =>
      "{" ++ newline_indent indent (S level)
          ++ join ("," ++ newline_indent indent (S level))
                  (map (fun kv => let '(k, x) := kv in
                                  encode_basestring_ascii k ++ ": "
                                    ++ dumps_at indent (S level) x) d)
          ++ newline_indent indent level ++ "}"
  end.

Definition dumps (indent : nat) (v : json) : string := dumps_at indent 0 v.

(** [isinstance(v, (dict, list))] *)
Definition is_dict_or_list (v : json) : bool :=
  match v with
  | JList _ | JDict _ => true
  | _ => false
  end.

(** [s + v] for a [str] [s] *)
Definition add_str (s : string) (v : json) : pyres string :=
  match v with
  | JStr t => Ok (s ++ t)
  | _ => Raise TypeError
  end.

(** An item of [sep.join(...)]: anything but a [str] is a TypeError. *)
Definition as_str (v : json) : pyres string :=
  match v with
  | JStr s => Ok s
  | _ => Raise TypeError
  end.

(** *** Callbacks: a state and exception monad

    A callback reads and writes the closure variables of its session (the
    state [S]) and may raise; what it wrote before raising stays written. *)

Definition M (S A : Type) : Type := S -> S * pyres A.

Definition ret {S A} (a : A) : M S A := fun s => (s, Ok a).

Definition bindM {S A B} (m : M S A) (k : A -> M S B) : M S B :=
  fun s =>
    match m s with
    | (s', Ok a) => k a s'
    | (s', Raise e) => (s', Raise e)
    end.

Definition lift {S A} (r : pyres A) : M S A := fun s => (s, r).

Definition modify {S} (f : S -> S) : M S unit := fun s => (f s, Ok tt).

Definition gets {S A} (f : S -> A) : M S A := fun s => (s, Ok (f s)).

(** [try: m  except E: pass] for the exceptions [E] that [caught] accepts. *)
Definition try_except_pass {S} (caught : exn -> bool) (m : M S unit) : M S unit :=
  fun s =>
    match m s with
    | (s', Raise e) => if caught e then (s', Ok tt) else (s', Raise e)
    | r => r
    end.

Notation "x <-- m ;; k" := (bindM m (fun x => k))
  (at level 61, m at next level, right associativity) : py_scope.
Notation "m ;;; k" := (bindM m (fun _ => k))
  (at level 61, right associativity) : py_scope.

Definition is_JSONDecodeError (e : exn) : bool :=
  match e with
  | JSONDecodeError => true
  | _ => false
  end.

(** *** Messages on the socket

    [json.loads] is the library's parser and the callbacks use a message only
    through it, so a message is kept as what the parser makes of it: text
    on which it raises JSONDecodeError, the value it denotes, or a message
    on which it raises something else. *)

(** What [json.loads] raises besides JSONDecodeError: RecursionError on
    brackets nested too deep, ValueError on an integer with too many digits,
    UnicodeDecodeError on a binary frame that is not UTF-8. *)
Inductive load_error : Type :=
| TooDeep
| TooManyDigits
| NotUtf8.

Definition load_exception (e : load_error) : exn :=
  match e with
  | TooDeep => RecursionError
  | TooManyDigits => ValueError
  | NotUtf8 => UnicodeDecodeError
  end.

Inductive message : Type :=
| NotJson (raw : string)
| Json (data : json)
| Unloadable (raw : string) (e : load_error).

Definition json_loads (m : message) : pyres json :=
  match m with
  | NotJson _ => Raise JSONDecodeError
  | Json data => Ok data
  | Unloadable _ e => Raise (load_exception e)
  end.

(** What the socket thread does with the callbacks, in order. *)
Inductive ws_event : Type :=
| Opened
| Received (m : message)
| Failed (err : string).

(** How a call that may [sys.exit] ends. *)
Inductive ending (A : Type) : Type :=
| Return (a : A)
| SysExit (code : Z).
Arguments Return {A} a.
Arguments SysExit {A} code.

End Py.

Import Py.
Open Scope py_scope.

(** ** scripts/execute_in_app.py *)

Module ExecuteInApp.

Section Resolve.

(** [discover_apps] asks Metro over HTTP; the answer it gives for a URL is
    taken as given.  Every element it returns has passed [app.get(...)], so
    it is a dict. *)
Variable discover_apps : string -> list dict.

(** The lines [for app in apps: print(f"  - {id}: {title}")] writes. *)
Definition available (apps : list dict) : list string :=
  map (fun app => "  - " ++ str (get "id" app) ++ ": " ++ str (get "title" app))
      apps.

(** [for app in apps: if app.get("id") == app_id: return app] *)
Fixpoint find_app (app_id : string) (apps : list dict) : option dict :=
  match apps with
  | [] => None
  | app :: apps' =>
      if eq_str (get "id" app) app_id then Some app else find_app app_id apps'
  end.

(** [if app_id:] on an [Optional[str]] *)
Definition given (app_id : option string) : option string :=
  match app_id with
  | Some s => if String.eqb s "" then None else Some s
  | None => None
  end.

(** The value is what was printed on stderr, with how the call ended. *)
Definition resolve_app (app_id : option string) (metro_url : string)
  : list string * ending dict :=
  let apps := discover_apps metro_url in
  match apps with
  | [] =>
      (["Error: No React Native apps connected.";
        "Ensure your app is running and connected to Metro."], SysExit 1)
  | _ =>
      match given app_id with
      | Some id =>
          match find_app id apps with
          | Some app => ([], Return app)
          | None =>
              (("Error: App with ID '" ++ id ++ "' not found.")
                 :: "Available apps:" :: available apps, SysExit 1)
          end
      | None =>
          match apps with
          | [app] => ([], Return app)
          | _ =>
              ("Error: Multiple apps connected. Specify --app-id."
                 :: "Available apps:" :: available apps, SysExit 1)
          end
      end
  end.

End Resolve.

Definition format_result (result : json) : pyres json :=
  result <- as_dict result ;;
  let obj_type := get_default "type" (JStr "unknown") result in
  if eq_str obj_type "undefined" then Ok (JStr "undefined")
  else if eq_str (get "subtype" result) "null" then Ok (JStr "null")
  else if contains "value" result then
    let val := get "value" result in
    if is_dict_or_list val then Ok (JStr (dumps 2 val))
    else Ok (JStr (str val))
  else if contains "description" result then Ok (get "description" result)
  else if contains "unserializableValue" result then
    Ok (get "unserializableValue" result)
  else
    let subtype := get_default "subtype" (JStr "") result in
    tail <- (if truthy subtype then add_str " " subtype else Ok "") ;;
    Ok (JStr ("[" ++ str obj_type ++ tail ++ "]")).

(** The [result] dict: its three keys never change, [success] is always a
    bool, and [None] is [JNull]. *)
Record SessionResult : Type := {
  success : bool;
  output : json;
  error : json
}.

(** The closure variables of [execute_in_app] and the socket: what was sent
    on it and whether [close] was called. *)
Record session : Type := {
  result : SessionResult;
  message_id : Z;
  runtime_enabled : bool;
  sent : list json;
  closed : bool
}.

Definition initial : session := {|
  result := {| success := false; output := JNull; error := JNull |};
  message_id := 1;
  runtime_enabled := false;
  sent := [];
  closed := false
|}.

Definition set_result (f : SessionResult -> SessionResult) (st : session) : session :=
  {| result := f (result st); message_id := message_id st;
     runtime_enabled := runtime_enabled st; sent := sent st; closed := closed st |}.

Definition set_success (b : bool) : session -> session :=
  set_result (fun r => {| success := b; output := output r; error := error r |}).

Definition set_output (v : json) : session -> session :=
  set_result (fun r => {| success := success r; output := v; error := error r |}).

Definition set_error (v : json) : session -> session :=
  set_result (fun r => {| success := success r; output := output r; error := v |}).

Definition set_runtime_enabled (b : bool) (st : session) : session :=
  {| result := result st; message_id := message_id st;
     runtime_enabled := b; sent := sent st; closed := closed st |}.

Definition incr_message_id (st : session) : session :=
  {| result := result st; message_id := message_id st + 1;
     runtime_enabled := runtime_enabled st; sent := sent st; closed := closed st |}.

Definition ws_send (request : json) : M session unit :=
  modify (fun st =>
    {| result := result st; message_id := message_id st;
       runtime_enabled := runtime_enabled st; sent := sent st ++ [request];
       closed := closed st |}).

Definition ws_close : M session unit :=
  modify (fun st =>
    {| result := result st; message_id := message_id st;
       runtime_enabled := runtime_enabled st; sent := sent st; closed := true |}).

Section Session.

Variable expression : string.
Variable await_promise : bool.

Definition evaluate_request : json :=
  JDict [("id", JInt 2);
         ("method", JStr "Runtime.evaluate");
         ("params", JDict [("expression", JStr expression);
                           ("returnByValue", JBool true);
                           ("awaitPromise", JBool await_promise);
                           ("userGesture", JBool true);
                           ("generatePreview", JBool true)])].

(** [exc_obj.get("description") or exc.get("text", "Exception")] *)
Definition exception_message (exc : json) : pyres json :=
  exc <- as_dict exc ;;
  exc_obj <- as_dict (get_default "exception" (JDict []) exc) ;;
  let description := get "description" exc_obj in
  if truthy description then Ok description
  else Ok (get_default "text" (JStr "Exception") exc).

(** The branches of [elif msg_id == 2:] above [ws.close()]. *)
Definition on_evaluate_response (data : dict) : M session unit :=
  if contains "error" data then
    err <-- lift (as_dict (get "error" data)) ;;
    modify (set_error (get_default "message" (JStr "Unknown error") err))
  else if contains "result" data then
    let eval_result := get "result" data in
    has_exception <-- lift (py_in "exceptionDetails" eval_result) ;;
    if has_exception : bool then
      exc <-- lift (subscript eval_result "exceptionDetails") ;;
      msg <-- lift (exception_message exc) ;;
      modify (set_error msg)
    else
      has_result <-- lift (py_in "result" eval_result) ;;
      if has_result : bool then
        modify (set_success true) ;;;
        inner <-- lift (subscript eval_result "result") ;;
        out <-- lift (format_result inner) ;;
        modify (set_output out)
      else
        modify (set_success true) ;;;
        modify (set_output (JStr "undefined"))
  else ret tt.

Definition on_message (message : message) : M session unit :=
  try_except_pass is_JSONDecodeError
    (data <-- lift (json_loads message) ;;
     data <-- lift (as_dict data) ;;
     let msg_id := get "id" data in
     if eq_int msg_id 1 then
       modify (set_runtime_enabled true) ;;;
       ws_send evaluate_request
     else if eq_int msg_id 2 then
       on_evaluate_response data ;;;
       ws_close
     else ret tt).

Definition on_open : M session unit :=
  id <-- gets message_id ;;
  ws_send (JDict [("id", JInt id); ("method", JStr "Runtime.enable")]) ;;;
  modify incr_message_id.

Definition on_error (err : string) : M session unit :=
  modify (set_error (JStr ("WebSocket error: " ++ err))).

(** One callback made by the socket thread.  An exception that leaves a
    callback is caught by the library, which goes on reading. *)
Definition dispatch (e : ws_event) (st : session) : session :=
  match e with
  | Opened => fst (on_open st)
  | Received m => fst (on_message m st)
  | Failed err => fst (on_error err st)
  end.

(** [ws.run_forever()] over what the socket brings, in order: the read loop
    makes no callback once [close] has been called. *)
Fixpoint run_forever (events : list ws_event) (st : session) : session :=
  match events with
  | [] => st
  | e :: events' =>
      if closed st then st else run_forever events' (dispatch e st)
  end.

Definition timeout_message : string :=
  "Timeout: Expression took too long to evaluate".

(** The session when [execute_in_app] returns.  [events] is what the socket
    thread got to process before [thread.join] came back, and [is_alive]
    what [thread.is_alive()] then answers: [true] when the wait ran out. *)
Definition execute_in_app_end (events : list ws_event) (is_alive : bool)
  : session :=
  let st := run_forever events initial in
  if is_alive then
    let st := fst (ws_close st) in
    if negb (success (result st)) && negb (truthy (error (result st)))
    then set_error (JStr timeout_message) st
    else st
  else st.

Definition execute_in_app (events : list ws_event) (is_alive : bool)
  : SessionResult :=
  result (execute_in_app_end events is_alive).

End Session.

End ExecuteInApp.

(** ** scripts/read_logs.py *)

Module ReadLogs.

Section Resolve.

Variable discover_apps : string -> list dict.

Definition available (apps : list dict) : list string :=
  map (fun app => "  - " ++ str (get "id" app) ++ ": " ++ str (get "title" app))
      apps.

Fixpoint find_app (app_id : string) (apps : list dict) : option dict :=
  match apps with
  | [] => None
  | app :: apps' =>
      if eq_str (get "id" app) app_id then Some app else find_app app_id apps'
  end.

Definition given (app_id : option string) : option string :=
  match app_id with
  | Some s => if String.eqb s "" then None else Some s
  | None => None
  end.

Definition resolve_app (app_id : option string) (metro_url : string)
  : list string * ending dict :=
  let apps := discover_apps metro_url in
  match apps with
  | [] =>
      (["Error: No React Native apps connected.";
        "Ensure your app is running and connected to Metro."], SysExit 1)
  | _ =>
      match given app_id with
      | Some id =>
          match find_app id apps with
          | Some app => ([], Return app)
          | None =>
              (("Error: App with ID '" ++ id ++ "' not found.")
                 :: "Available apps:" :: available apps, SysExit 1)
          end
      | None =>
          match apps with
          | [app] => ([], Return app)
          | _ =>
              ("Error: Multiple apps connected. Specify --app-id."
                 :: "Available apps:" :: available apps, SysExit 1)
          end
      end
  end.

End Resolve.

Definition format_remote_object (obj : json) : pyres json :=
  obj <- as_dict obj ;;
  let obj_type := get_default "type" (JStr "unknown") obj in
  if eq_str obj_type "undefined" then Ok (JStr "undefined")
  else if eq_str (get "subtype" obj) "null" then Ok (JStr "null")
  else if contains "description" obj then Ok (get "description" obj)
  else if contains "value" obj then
    let val := get "value" obj in
    if is_dict_or_list val then Ok (JStr (dumps 2 val))
    else Ok (JStr (str val))
  else if contains "unserializableValue" obj then
    Ok (get "unserializableValue" obj)
  else
    let subtype := get_default "subtype" (JStr "") obj in
    tail <- (if truthy subtype then add_str " " subtype else Ok "") ;;
    Ok (JStr ("[" ++ str obj_type ++ tail ++ "]")).

(** A [log_entry] dict: the key "location" is there or not. *)
Record LogRecord : Type := {
  level : json;
  text : string;
  location : option string
}.

Record session : Type := {
  logs : list LogRecord;
  message_id : Z;
  sent : list json;
  closed : bool
}.

Definition initial : session := {|
  logs := []; message_id := 1; sent := []; closed := false
|}.

Definition append_log (entry : LogRecord) (st : session) : session :=
  {| logs := logs st ++ [entry]; message_id := message_id st;
     sent := sent st; closed := closed st |}.

Definition incr_message_id (st : session) : session :=
  {| logs := logs st; message_id := message_id st + 1;
     sent := sent st; closed := closed st |}.

Definition ws_send (request : json) : M session unit :=
  modify (fun st =>
    {| logs := logs st; message_id := message_id st;
       sent := sent st ++ [request]; closed := closed st |}).

Definition ws_close : M session unit :=
  modify (fun st =>
    {| logs := logs st; message_id := message_id st;
       sent := sent st; closed := true |}).

Definition UNSUPPORTED_MSG : string :=
  "You are using an unsupported debugging client".

(** [" ".join(format_remote_object(arg) for arg in args)]: [join] first
    runs the generator to its end, then wants every item to be a [str]. *)
Definition join_args (args : json) : pyres string :=
  items <- iterate args ;;
  parts <- mapM format_remote_object items ;;
  texts <- mapM as_str parts ;;
  Ok (join " " texts).

(** The value of [log_entry["location"]], when the entry gets one. *)
Definition location_of (level : json) (params : dict) : pyres (option string) :=
  if (eq_str level "error" || eq_str level "warning")
     && contains "stackTrace" params
  then
    trace <- as_dict (get "stackTrace" params) ;;
    let frames := get_default "callFrames" (JList []) trace in
    if truthy frames then
      top <- first_item frames ;;
      top <- as_dict top ;;
      Ok (Some (str (get_default "functionName" (JStr "anonymous") top)
                  ++ " (line "
                  ++ str (get_default "lineNumber" (JStr "?") top) ++ ")"))
    else Ok None
  else Ok None.

Section Session.

Variable max_logs : Z.

(** [compiled_pattern]: a compiled pattern is kept as the test
    [search(text) is not None] it makes; [None] when no pattern was given. *)
Variable compiled_pattern : option (string -> bool).

(** [compiled_pattern and not compiled_pattern.search(text)] *)
Definition filtered_out (text : string) : bool :=
  match compiled_pattern with
  | Some search => negb (search text)
  | None => false
  end.

Definition on_message (message : message) : M session unit :=
  try_except_pass is_JSONDecodeError
    (data <-- lift (json_loads message) ;;
     data <-- lift (as_dict data) ;;
     if eq_str (get "method" data) "Runtime.consoleAPICalled" then
       params <-- lift (as_dict (get_default "params" (JDict []) data)) ;;
       let args := get_default "args" (JList []) params in
       text <-- lift (join_args args) ;;
       if substring_in UNSUPPORTED_MSG text then ret tt
       else
         let level := get_default "type" (JStr "log") params in
         if filtered_out text then ret tt
         else
           location <-- lift (location_of level params) ;;
           modify (append_log {| level := level; text := text;
                                 location := location |}) ;;;
           count <-- gets (fun st => Z.of_nat (List.length (logs st))) ;;
           if count >=? max_logs then ws_close else ret tt
     else ret tt).

Definition on_open : M session unit :=
  id <-- gets message_id ;;
  ws_send (JDict [("id", JInt id); ("method", JStr "Runtime.enable")]) ;;;
  modify incr_message_id.

(** [on_error] only prints. *)
Definition on_error (err : string) : M session unit := ret tt.

Definition dispatch (e : ws_event) (st : session) : session :=
  match e with
  | Opened => fst (on_open st)
  | Received m => fst (on_message m st)
  | Failed err => fst (on_error err st)
  end.

Fixpoint run_forever (events : list ws_event) (st : session) : session :=
  match events with
  | [] => st
  | e :: events' =>
      if closed st then st else run_forever events' (dispatch e st)
  end.

(** The session when [read_logs] returns; [events] and [is_alive] as in
    [ExecuteInApp.execute_in_app_end]. *)
Definition read_logs_end (events : list ws_event) (is_alive : bool) : session :=
  let st := run_forever events initial in
  if is_alive then fst (ws_close st) else st.

Definition read_logs (events : list ws_event) (is_alive : bool)
  : list LogRecord :=
  logs (read_logs_end events is_alive).

End Session.

End ReadLogs.

(** ** The vocabulary of the specification *)

(** The three resolution failures of the spec's §4.2, as the text the code
    prints before it exits with status 1. *)
Definition NoTargets : list string * ending dict :=
  (["Error: No React Native apps connected.";
    "Ensure your app is running and connected to Metro."], SysExit 1).

(** One line per candidate, with its id and its title. *)
Definition candidate_list (apps : list dict) : list string :=
  map (fun app => "  - " ++ str (get "id" app) ++ ": " ++ str (get "title" app))
      apps.

Definition TargetNotFound (id : string) (apps : list dict)
  : list string * ending dict :=
  (("Error: App with ID '" ++ id ++ "' not found.")
     :: "Available apps:" :: candidate_list apps, SysExit 1).

Definition AmbiguousTarget (apps : list dict) : list string * ending dict :=
  ("Error: Multiple apps connected. Specify --app-id."
     :: "Available apps:" :: candidate_list apps, SysExit 1).

(** [app] is the first of [apps] whose id is [id]. *)
Definition first_match (id : string) (apps : list dict) (app : dict) : Prop :=
  exists before after,
    apps = (before ++ app :: after)%list
    /\ eq_str (get "id" app) id = true
    /\ Forall (fun other => eq_str (get "id" other) id = false) before.

(** The explicit id counts as omitted when it is [None] or empty. *)
Definition omitted (app_id : option string) : Prop :=
  app_id = None \/ app_id = Some "".

(** The capture is within its limit: the socket is closed exactly when the
    number of records has reached [max_logs]. *)
Definition within_limit (max_logs : Z) (st : ReadLogs.session) : Prop :=
  if ReadLogs.closed st
  then Z.of_nat (List.length (ReadLogs.logs st)) = max_logs
  else Z.of_nat (List.length (ReadLogs.logs st)) < max_logs.


(** ** Sample data *)

Module Sample.

Definition app_a : dict := [("id", JStr "a"); ("title", JStr "First")].
Definition app_b : dict := [("id", JStr "b"); ("title", JStr "Second")].

(** A Metro to which only the first app is connected. *)
Definition only_a (metro_url : string) : list dict := [app_a].

(** A number that carries both its value and a description. *)
Definition forty_two : json :=
  JDict [("type", JStr "number"); ("value", JInt 42);
         ("description", JStr "forty-two")].

Definition enable_response : message :=
  Json (JDict [("id", JInt 1); ("result", JDict [])]).

Definition evaluate_response (inner : json) : message :=
  Json (JDict [("id", JInt 2); ("result", JDict [("result", inner)])]).

Definition two : json :=
  JDict [("type", JStr "number"); ("value", JInt 2); ("description", JStr "2")].

Definition console_event (level : string) (args : list json) : message :=
  Json (JDict [("method", JStr "Runtime.consoleAPICalled");
               ("params", JDict [("type", JStr level); ("args", JList args)])]).

Definition string_arg (s : string) : json :=
  JDict [("type", JStr "string"); ("value", JStr s)].

(** The response to an expression that threw: the result comes with the
    thrown object and with the details of the exception. *)
Definition exception_response (description text : string) : message :=
  Json (JDict
    [("id", JInt 2);
     ("result",
      JDict [("result", JDict [("type", JStr "object");
                               ("subtype", JStr "error")]);
             ("exceptionDetails",
              JDict [("text", JStr text);
                     ("exception",
                      JDict [("type", JStr "object");
                             ("description", JStr description)])])])]).

(** A message of brackets nested too deep for [json.loads], which raises
    RecursionError on it. *)
Definition deep_message : message :=
  Unloadable (Pos.iter (String "[") "" 100000) TooDeep.



End Sample.

(** ** Discovery and the command lines *)

(** *** Text helpers *)

Module Text.

(** [str.isspace] on one code point below 256. *)
Definition is_space (c : ascii) : bool :=
  let n := nat_of_ascii c in
  (Nat.leb 9 n && Nat.leb n 13) || (Nat.leb 28 n && Nat.leb n 32)
  || Nat.eqb n 133 || Nat.eqb n 160.

Fixpoint lstrip_by (drop : ascii -> bool) (s : string) : string :=
  match s with
  | EmptyString => EmptyString
  | String c s' => if drop c then lstrip_by drop s' else s
  end.

Fixpoint rstrip_by (drop : ascii -> bool) (s : string) : string :=
  match s with
  | EmptyString => EmptyString
  | String c s' =>
      match rstrip_by drop s' with
      | EmptyString => if drop c then EmptyString else String c EmptyString
      | kept => String c kept
      end
  end.

(** [s.rstrip(c)] for a one-character [c] *)
Definition rstrip (c : ascii) (s : string) : string :=
  rstrip_by (Ascii.eqb c) s.

(** [s.strip()] *)
Definition strip (s : string) : string :=
  rstrip_by is_space (lstrip_by is_space s).

Fixpoint all_chars (p : ascii -> bool) (s : string) : bool :=
  match s with
  | EmptyString => true
  | String c s' => p c && all_chars p s'
  end.

End Text.

(** *** What the three scripts share of [discover_apps] *)

Module Metro.

(** What [urllib.request.urlopen(url, timeout=5)] and [response.read()]
    come to: a [URLError] with its text, or the body that was read. *)
Inductive response : Type :=
| Unreachable (reason : string)
| Body (m : message).

(** [f"{metro_url.rstrip('/')}/json"] *)
Definition request_url (metro_url : string) : string :=
  Text.rstrip "/" metro_url ++ "/json".

(** [app.get("reactNative") or "React Native" in app.get("description", "")] *)
Definition is_react_native (app : json) : pyres bool :=
  app <- as_dict app ;;
  if truthy (get "reactNative" app) then Ok true
  else py_in "React Native" (get_default "description" (JStr "") app).

(** The comprehension [[app for app in apps if ...]] over a list: the test
    is made element by element, and the first exception ends it. *)
Fixpoint select (items : list json) : pyres (list dict) :=
  match items with
  | [] => Ok []
  | item :: items' =>
      keep <- is_react_native item ;;
      app <- as_dict item ;;
      rest <- select items' ;;
      Ok (if keep : bool then app :: rest else rest)
  end.

Definition react_native_apps (apps : json) : pyres (list dict) :=
  items <- iterate apps ;;
  select items.

(** The body of the [try] in [discover_apps]. *)
Definition parse_apps (m : message) : pyres (list dict) :=
  apps <- json_loads m ;;
  react_native_apps apps.

End Metro.

(** *** Processes *)

Module Process.

(** How a script ends: [sys.exit(status)] (0 when [main] returns), or an
    exception that nothing catches. *)
Inductive termination : Type :=
| Exit (status : Z)
| Uncaught (e : exn)
| UncaughtReError.

(** What a run of a script writes before it ends, and how it ends: the
    [print]s of the script, one item each, and on stderr also the warnings
    of [re.compile].  The traceback of an uncaught exception is not in
    [stderr]: [Uncaught] stands for it. *)
Record run : Type := {
  stdout : list string;
  stderr : list string;
  exit : termination
}.

(** [--timeout], a float, by what [thread.join(timeout=...)] makes of it: a
    wait (none for a negative number), OverflowError for a number too large
    for a timestamp ([inf], [1e30]), ValueError for [nan]. *)
Inductive wait : Type :=
| Waits
| TooLarge
| NotANumber.

Definition join (t : wait) : pyres unit :=
  match t with
  | Waits => Ok tt
  | TooLarge => Raise OverflowError
  | NotANumber => Raise ValueError
  end.

Definition fail (err : list string) : run :=
  {| stdout := []; stderr := err; exit := Exit 1 |}.

End Process.

(** *** scripts/discover_apps.py *)

Module DiscoverApps.

Import Process.

Section Script.

Variable urlopen : string -> Metro.response.

(** [str(e)] of the [JSONDecodeError] the parser raises on a body. *)
Variable decode_error : message -> string.

(** The lines printed on stderr, and the value, [sys.exit] or exception. *)
Definition discover_apps (metro_url : string)
  : list string * pyres (ending (list dict)) :=
  match urlopen (Metro.request_url metro_url) with
  | Metro.Unreachable reason =>
      ([("Error: Cannot connect to Metro at " ++ metro_url
           ++ ". Is Metro running?");
        "Details: " ++ reason], Ok (SysExit 1))
  | Metro.Body m =>
      match Metro.parse_apps m with
      | Ok rn_apps => ([], Ok (Return rn_apps))
      | Raise JSONDecodeError =>
          (["Error: Invalid response from Metro: " ++ decode_error m],
           Ok (SysExit 1))
      | Raise e => ([], Raise e)
      end
  end.

(** The five [print]s of one app in the listing, numbered from 1. *)
Definition entry (i : Z) (app : dict) : list string :=
  [ str_of_Z i ++ ". " ++ str (get_default "title" (JStr "Unknown") app);
    "   ID: " ++ str (get_default "id" (JStr "unknown") app);
    "   Device: "
      ++ str (get_default "deviceName" (JStr "Unknown device") app);
    "   WebSocket: "
      ++ str (get_default "webSocketDebuggerUrl" (JStr "") app);
    "" ].

Fixpoint entries (i : Z) (apps : list dict) : list string :=
  match apps with
  | [] => []
  | app :: apps' => (entry i app ++ entries (i + 1) apps')%list
  end.

Definition main (metro_url : string) (as_json : bool) : run :=
  match discover_apps metro_url with
  | (err, Raise e) => {| stdout := []; stderr := err; exit := Uncaught e |}
  | (err, Ok (SysExit status)) =>
      {| stdout := []; stderr := err; exit := Exit status |}
  | (err, Ok (Return apps)) =>
      match apps with
      | [] =>
          fail (err ++ ["No React Native apps connected.";
                        "Ensure your app is running and connected to Metro."])
      | _ =>
          {| stdout :=
               if as_json then [dumps 2 (JList (map JDict apps))]
               else (("Found " ++ str_of_Z (Z.of_nat (List.length apps))
                        ++ " connected app(s):" ++ chr newline)
                       :: entries 1 apps);
             stderr := err;
             exit := Exit 0 |}
      end
  end.

End Script.

End DiscoverApps.

(** *** scripts/execute_in_app.py: discovery and [main] *)

Module ExecuteInAppCli.

Import Process.

(** The parsed command line.  How long a [--timeout] that waits lets the
    socket thread run shows in what [socket] gives. *)
Record args : Type := {
  expression : option string;
  app_id : option string;
  metro_url : string;
  no_await : bool;
  timeout : wait;
  as_json : bool
}.

(** What [--json] prints of a result. *)
Definition result_json (r : ExecuteInApp.SessionResult) : json :=
  JDict [("success", JBool (ExecuteInApp.success r));
         ("output", ExecuteInApp.output r);
         ("error", ExecuteInApp.error r)].

Section Script.

Variable urlopen : string -> Metro.response.

(** Whether [import websocket] succeeds. *)
Variable installed : bool.

(** What the socket thread does on a socket to [ws_url] until the main
    thread goes on, and whether it is still alive then. *)
Variable socket : json -> list ws_event * bool.

(** [except Exception: return []] *)
Definition discover_apps (metro_url : string) : list dict :=
  match urlopen (Metro.request_url metro_url) with
  | Metro.Unreachable _ => []
  | Metro.Body m =>
      match Metro.parse_apps m with
      | Ok apps => apps
      | Raise _ => []
      end
  end.

Definition ensure_websocket : list string * ending unit :=
  if installed then ([], Return tt)
  else (["Error: websocket-client not installed.";
         "Install with: pip install websocket-client"], SysExit 1).

Definition main (a : args) (stdin : string) : run :=
  let expression :=
    match expression a with
    | Some e => if String.eqb e "" then Text.strip stdin else e
    | None => Text.strip stdin
    end in
  if String.eqb expression "" then
    fail ["Error: No expression provided.";
          "Usage: execute_in_app.py 'expression' or pipe via stdin"]
  else
    match ExecuteInApp.resolve_app discover_apps (app_id a) (metro_url a) with
    | (err, SysExit status) =>
        {| stdout := []; stderr := err; exit := Exit status |}
    | (err, Return app) =>
        let ws_url := get "webSocketDebuggerUrl" app in
        if negb (truthy ws_url) then
          fail (err ++ ["Error: No WebSocket debugger URL for this app."])
        else
          match ensure_websocket with
          | (err', SysExit status) =>
              {| stdout := []; stderr := (err ++ err')%list;
                 exit := Exit status |}
          | (err', Return _) =>
              let '(events, is_alive) := socket ws_url in
              match join (timeout a) with
              | Raise e =>
                  {| stdout := []; stderr := (err ++ err')%list;
                     exit := Uncaught e |}
              | Ok _ =>
                  let result :=
                    ExecuteInApp.execute_in_app expression
                      (negb (no_await a)) events is_alive in
                  if as_json a then
                    {| stdout := [dumps 2 (result_json result)];
                       stderr := (err ++ err')%list; exit := Exit 0 |}
                  else if ExecuteInApp.success result then
                    {| stdout := [str (ExecuteInApp.output result)];
                       stderr := (err ++ err')%list; exit := Exit 0 |}
                  else
                    fail (err ++ err'
                            ++ ["Error: " ++ str (ExecuteInApp.error result)])
              end
          end
    end.

End Script.

End ExecuteInAppCli.

(** *** scripts/read_logs.py: discovery and [main] *)

Module ReadLogsCli.

Import Process.

Record args : Type := {
  app_id : option string;
  metro_url : string;
  max_logs : Z;
  filter : option string;
  timeout : wait;
  as_json : bool
}.

(** What [re.compile(pattern)] comes to: the search of the compiled
    pattern, [re.error], or another exception (OverflowError on a repeat
    count that is too large). *)
Inductive compilation : Type :=
| Compiled (search : string -> bool)
| ReError
| CompileRaises (e : exn).

(** What [re.compile(pattern) if pattern else None] comes to: the value of
    [compiled_pattern], or the way the script ends. *)
Inductive compiled : Type :=
| Pattern (compiled_pattern : option (string -> bool))
| Fails (t : termination).

(** A [log_entry] as the dict it is, its keys in the order they were set. *)
Definition entry_json (r : ReadLogs.LogRecord) : json :=
  JDict (("level", ReadLogs.level r) :: ("text", JStr (ReadLogs.text r))
           :: match ReadLogs.location r with
              | Some loc => [("location", JStr loc)]
              | None => []
              end).

(** The [print]s of one record in the text listing. *)
Definition show (r : ReadLogs.LogRecord) : list string :=
  let prefix :=
    if eq_str (ReadLogs.level r) "error" then "ERROR: "
    else if eq_str (ReadLogs.level r) "warning" then "WARNING: "
    else "" in
  (prefix ++ ReadLogs.text r)
    :: match ReadLogs.location r with
       | Some loc => ["  at " ++ loc]
       | None => []
       end.

Section Script.

Variable urlopen : string -> Metro.response.
Variable installed : bool.

(** [re.compile(pattern)]: the warnings it writes on stderr, and what it
    comes to. *)
Variable re_compile : string -> list string * compilation.

Variable socket : json -> list ws_event * bool.

Definition discover_apps (metro_url : string) : list dict :=
  match urlopen (Metro.request_url metro_url) with
  | Metro.Unreachable _ => []
  | Metro.Body m =>
      match Metro.parse_apps m with
      | Ok apps => apps
      | Raise _ => []
      end
  end.

Definition ensure_websocket : list string * ending unit :=
  if installed then ([], Return tt)
  else (["Error: websocket-client not installed.";
         "Install with: pip install websocket-client"], SysExit 1).

(** [re.compile(pattern) if pattern else None], with the warnings. *)
Definition compile (pattern : option string) : list string * compiled :=
  match pattern with
  | Some p =>
      if String.eqb p "" then ([], Pattern None)
      else match re_compile p with
           | (warnings, Compiled search) => (warnings, Pattern (Some search))
           | (warnings, ReError) => (warnings, Fails UncaughtReError)
           | (warnings, CompileRaises e) => (warnings, Fails (Uncaught e))
           end
  | None => ([], Pattern None)
  end.

(** The lines that [on_error] prints on stderr while the read loop runs. *)
Fixpoint printed_errors (max_logs : Z)
    (compiled_pattern : option (string -> bool)) (events : list ws_event)
    (st : ReadLogs.session) : list string :=
  match events with
  | [] => []
  | e :: events' =>
      if ReadLogs.closed st then []
      else
        (match e with
         | Failed err => [("WebSocket error: " ++ err)%string]
         | _ => []
         end
         ++ printed_errors max_logs compiled_pattern events'
              (ReadLogs.dispatch max_logs compiled_pattern e st))%list
  end.

Definition main (a : args) : run :=
  match ReadLogs.resolve_app discover_apps (app_id a) (metro_url a) with
  | (err, SysExit status) =>
      {| stdout := []; stderr := err; exit := Exit status |}
  | (err, Return app) =>
      let ws_url := get "webSocketDebuggerUrl" app in
      if negb (truthy ws_url) then
        fail (err ++ ["Error: No WebSocket debugger URL for this app."])
      else
        match ensure_websocket with
        | (err', SysExit status) =>
            {| stdout := []; stderr := (err ++ err')%list;
               exit := Exit status |}
        | (err', Return _) =>
            match compile (filter a) with
            | (warnings, Fails t) =>
                {| stdout := []; stderr := (err ++ err' ++ warnings)%list;
                   exit := t |}
            | (warnings, Pattern compiled_pattern) =>
                let '(events, is_alive) := socket ws_url in
                let written :=
                  (err ++ err' ++ warnings
                     ++ printed_errors (max_logs a) compiled_pattern
                          events ReadLogs.initial)%list in
                match join (timeout a) with
                | Raise e =>
                    {| stdout := []; stderr := written; exit := Uncaught e |}
                | Ok _ =>
                    let logs :=
                      ReadLogs.read_logs (max_logs a) compiled_pattern
                        events is_alive in
                    {| stdout :=
                         if as_json a
                         then [dumps 2 (JList (map entry_json logs))]
                         else match logs with
                              | [] => ["No logs received."]
                              | _ => flat_map show logs
                              end;
                       stderr := written;
                       exit := Exit 0 |}
                end
            end
        end
  end.

End Script.

End ReadLogsCli.

(** *** Vocabulary of the further properties *)

(** A response to the evaluate request, as [on_message] tells it: a dict
    whose id equals 2 and not 1. *)
Definition is_evaluate_response (e : ws_event) : bool :=
  match e with
  | Received (Json (JDict data)) =>
      negb (eq_int (get "id" data) 1) && eq_int (get "id" data) 2
  | _ => false
  end.

(** A request [Runtime.enable], whatever its id. *)
Definition is_enable_request (request : json) : bool :=
  match request with
  | JDict [("id", JInt _); ("method", JStr m)] => String.eqb m "Runtime.enable"
  | _ => false
  end.

(** A record that [read_logs] may return under a filter: its text passes the
    filter and has no marker, and it has a location only at the levels
    "error" and "warning". *)
Definition admissible (compiled_pattern : option (string -> bool))
    (r : ReadLogs.LogRecord) : Prop :=
  ReadLogs.filtered_out compiled_pattern (ReadLogs.text r) = false
  /\ substring_in ReadLogs.UNSUPPORTED_MSG (ReadLogs.text r) = false
  /\ (ReadLogs.location r <> None ->
      eq_str (ReadLogs.level r) "error" = true
      \/ eq_str (ReadLogs.level r) "warning" = true).

(** [l1] is a prefix of [l2]. *)
Definition prefix_of {A} (l1 l2 : list A) : Prop :=
  exists more, l2 = (l1 ++ more)%list.

(** *** Sample answers of Metro *)

Module MetroSample.

Definition flagged_app : dict :=
  [("id", JStr "a"); ("title", JStr "First"); ("reactNative", JBool true);
   ("webSocketDebuggerUrl", JStr "ws://localhost:8081/inspector/a")].

Definition described_app : dict :=
  [("id", JStr "b"); ("title", JStr "Second");
   ("description", JStr "React Native Bridgeless");
   ("webSocketDebuggerUrl", JStr "ws://localhost:8081/inspector/b")].

Definition other_app : dict :=
  [("id", JStr "c"); ("title", JStr "Third"); ("description", JStr "page")].

(** Metro on port 8081 with the three apps, and nothing elsewhere. *)
Definition urlopen (url : string) : Metro.response :=
  if String.eqb url "http://localhost:8081/json"
  then Metro.Body (Json (JList [JDict flagged_app; JDict other_app;
                                JDict described_app]))
  else Metro.Unreachable "Connection refused".

(** Metro with the first app only. *)
Definition urlopen_one (url : string) : Metro.response :=
  Metro.Body (Json (JList [JDict flagged_app])).

(** A socket on which the peer answers the handshake and the evaluation. *)
Definition socket (ws_url : json) : list ws_event * bool :=
  ([Opened; Received Sample.enable_response;
    Received (Sample.evaluate_response Sample.two)], false).

(** A socket on which nothing comes before the wait ends. *)
Definition silent_socket (ws_url : json) : list ws_event * bool :=
  ([Opened], true).

End MetroSample.

(** * Properties *)

(** ** Strings and dictionaries *)

Lemma prefix_app (needle rest : string) : prefix needle (needle ++ rest) = true.
Proof.
  induction needle as [|c needle IH]; simpl.
  - now destruct rest.
  - destruct (ascii_dec c c) as [_|ne]; [exact IH | now destruct ne].
Qed.

Lemma prefix_inv (needle hay : string) :
  prefix needle hay = true -> exists rest, hay = needle ++ rest.
Proof.
  revert hay; induction needle as [|c needle IH]; intros hay H.
  - now exists hay.
  - destruct hay as [|c' hay]; simpl in H; [discriminate|].
    destruct (ascii_dec c c') as [->|_]; [|discriminate].
    destruct (IH _ H) as [rest ->]. now exists rest.
Qed.

(** [substring_in] is Python's [in] on strings: the needle occurs somewhere
    in the haystack. *)
Lemma substring_in_spec (needle hay : string) :
  substring_in needle hay = true
  <-> exists before after, hay = before ++ needle ++ after.
Proof.
  split.
  - induction hay as [|c hay IH]; cbn [substring_in]; intros H;
      apply orb_true_iff in H; destruct H as [H|H]; try discriminate.
    + destruct (prefix_inv _ _ H) as [rest E]. now exists "", rest.
    + destruct (prefix_inv _ _ H) as [rest E]. now exists "", rest.
    + destruct (IH H) as (before & after & ->).
      now exists (String c before), after.
  - intros (before & after & ->).
    induction before as [|c before IH].
    + change ("" ++ needle ++ after) with (needle ++ after).
      destruct (needle ++ after) eqn:E; cbn [substring_in];
        rewrite <- E, prefix_app; reflexivity.
    + change (String c before ++ needle ++ after)
        with (String c (before ++ needle ++ after)).
      cbn [substring_in]. rewrite IH. apply orb_true_r.
Qed.

Lemma contains_lookup (k : string) (d : dict) :
  contains k d = true <-> exists v, lookup k d = Some v.
Proof.
  unfold contains. destruct (lookup k d) as [v|]; split; try discriminate.
  - now exists v.
  - reflexivity.
  - now intros [v H].
Qed.

Lemma contains_false (k : string) (d : dict) :
  contains k d = false <-> lookup k d = None.
Proof.
  unfold contains. now destruct (lookup k d).
Qed.

Lemma get_lookup (k : string) (d : dict) (v : json) :
  lookup k d = Some v -> get k d = v.
Proof. unfold get. now intros ->. Qed.

Lemma get_default_lookup (k : string) (dflt : json) (d : dict) (v : json) :
  lookup k d = Some v -> get_default k dflt d = v.
Proof. unfold get_default. now intros ->. Qed.

Lemma get_default_absent (k : string) (dflt : json) (d : dict) :
  lookup k d = None -> get_default k dflt d = dflt.
Proof. unfold get_default. now intros ->. Qed.

Lemma get_absent (k : string) (d : dict) : lookup k d = None -> get k d = JNull.
Proof. unfold get. now intros ->. Qed.

(** The two scripts carry the same resolver. *)
Lemma resolve_app_same discover_apps app_id metro_url :
  ReadLogs.resolve_app discover_apps app_id metro_url
  = ExecuteInApp.resolve_app discover_apps app_id metro_url.
Proof. reflexivity. Qed.

(** ** The decoders *)

(** [format_result] takes the six rules of the spec's §4.3 in their order. *)
Lemma format_result_rule_order (d : dict) :
  let type := get_default "type" (JStr "unknown") d in
  (eq_str type "undefined" = true ->
   ExecuteInApp.format_result (JDict d) = Ok (JStr "undefined"))
  /\ (eq_str type "undefined" = false ->
      (eq_str (get "subtype" d) "null" = true ->
       ExecuteInApp.format_result (JDict d) = Ok (JStr "null"))
      /\ (eq_str (get "subtype" d) "null" = false ->
          (forall v, lookup "value" d = Some v ->
             ExecuteInApp.format_result (JDict d)
             = Ok (JStr (if is_dict_or_list v then dumps 2 v else str v)))
          /\ (lookup "value" d = None ->
              (forall v, lookup "description" d = Some v ->
                 ExecuteInApp.format_result (JDict d) = Ok v)
              /\ (lookup "description" d = None ->
                  (forall v, lookup "unserializableValue" d = Some v ->
                     ExecuteInApp.format_result (JDict d) = Ok v)
                  /\ (lookup "unserializableValue" d = None ->
                      (lookup "subtype" d = None ->
                       ExecuteInApp.format_result (JDict d)
                       = Ok (JStr ("[" ++ str type ++ "]")))
                      /\ (forall s, lookup "subtype" d = Some (JStr s) ->
                          s <> "" ->
                          ExecuteInApp.format_result (JDict d)
                          = Ok (JStr ("[" ++ str type ++ " " ++ s ++ "]")))))))).
Proof.
  intro type. unfold ExecuteInApp.format_result, as_dict, bind.
  fold type. split; [intros -> | intros ->]; [reflexivity|].
  split; [intros -> | intros ->]; [reflexivity|].
  unfold contains. split.
  { intros v Hv. rewrite (get_lookup _ _ _ Hv), Hv.
    now destruct (is_dict_or_list v). }
  intros ->. split.
  { intros v Hv. now rewrite (get_lookup _ _ _ Hv), Hv. }
  intros ->. split.
  { intros v Hv. now rewrite (get_lookup _ _ _ Hv), Hv. }
  intros ->. split.
  - intros Hs. rewrite (get_default_absent _ _ _ Hs). reflexivity.
  - intros s Hs Hne. rewrite (get_default_lookup _ _ _ _ Hs).
    cbn [truthy add_str]. apply String.eqb_neq in Hne. now rewrite Hne.
Qed.

(** [format_remote_object] looks at the description before the value. *)
Lemma format_remote_object_description_first (d : dict) (v : json) :
  eq_str (get_default "type" (JStr "unknown") d) "undefined" = false ->
  eq_str (get "subtype" d) "null" = false ->
  lookup "description" d = Some v ->
  ReadLogs.format_remote_object (JDict d) = Ok v.
Proof.
  intros Ht Hs Hd. unfold ReadLogs.format_remote_object, as_dict, bind.
  rewrite Ht, Hs. unfold contains. now rewrite (get_lookup _ _ _ Hd), Hd.
Qed.

(** C1: the decision rule of §4.3 renders the inline value of a RemoteValue
    that also carries a description.  On the number 42 described as
    "forty-two", [format_result] does so and answers "42", while
    [format_remote_object] answers the description. *)
Theorem C1_format_remote_object_ignores_value :
  ExecuteInApp.format_result Sample.forty_two = Ok (JStr "42")
  /\ ReadLogs.format_remote_object Sample.forty_two = Ok (JStr "forty-two").
Proof. split; reflexivity. Qed.

(** ** The evaluation session *)

(** C2: a response with id 2 that arrives while the handshake flag is still
    unset is processed like any other: [on_message] records the result and
    closes the socket, and the flag is still unset afterwards. *)
Theorem C2_early_evaluate_response_is_accepted (expression : string)
    (await_promise : bool) :
  let waiting := ExecuteInApp.dispatch expression await_promise Opened
                   ExecuteInApp.initial in
  let st := ExecuteInApp.dispatch expression await_promise
              (Received (Sample.evaluate_response Sample.two)) waiting in
  ExecuteInApp.runtime_enabled waiting = false
  /\ ExecuteInApp.closed waiting = false
  /\ ExecuteInApp.runtime_enabled st = false
  /\ ExecuteInApp.result st
     = {| ExecuteInApp.success := true;
          ExecuteInApp.output := JStr "2";
          ExecuteInApp.error := JNull |}
  /\ ExecuteInApp.closed st = true.
Proof. repeat split. Qed.

(** C4: when the peer closes the socket after the handshake request and
    before any response, the socket thread ends and [execute_in_app] returns
    its initial result: no success, no output and no error. *)
Theorem C4_peer_close_leaves_result_empty (expression : string)
    (await_promise : bool) :
  ExecuteInApp.execute_in_app expression await_promise [Opened] false
  = {| ExecuteInApp.success := false;
       ExecuteInApp.output := JNull;
       ExecuteInApp.error := JNull |}.
Proof. reflexivity. Qed.

(** A socket error reported before the evaluate response leaves its message
    in a result that then also gets the output. *)
Lemma error_then_response_fills_both (expression : string)
    (await_promise : bool) :
  ExecuteInApp.execute_in_app expression await_promise
    [Opened; Failed "reset"; Received Sample.enable_response;
     Received (Sample.evaluate_response Sample.two)] false
  = {| ExecuteInApp.success := true;
       ExecuteInApp.output := JStr "2";
       ExecuteInApp.error := JStr "WebSocket error: reset" |}.
Proof. reflexivity. Qed.

(** C9, as stated, fails on a message of brackets nested too deep: it is no
    JSON document, [json.loads] raises RecursionError on it, and
    [except json.JSONDecodeError] does not catch that, so the exception
    leaves the callback of both flows.  When the library then reports it to
    [on_error], the evaluation has an error in its result. *)
Lemma C9_counterexample :
  ExecuteInApp.on_message "1+1" true Sample.deep_message ExecuteInApp.initial
  = (ExecuteInApp.initial, Raise RecursionError)
  /\ ReadLogs.on_message 100 None Sample.deep_message ReadLogs.initial
     = (ReadLogs.initial, Raise RecursionError)
  /\ ExecuteInApp.execute_in_app "1+1" true
       [Opened; Received Sample.deep_message;
        Failed "maximum recursion depth exceeded"] false
     = {| ExecuteInApp.success := false;
          ExecuteInApp.output := JNull;
          ExecuteInApp.error :=
            JStr "WebSocket error: maximum recursion depth exceeded" |}.
Proof. repeat split. Qed.

(** C9 (amended): a message on which [json.loads] raises JSONDecodeError
    changes nothing in either session, raises nothing out of the callback
    and does not close the socket; the read loop goes on with the messages
    that follow.  A message on which [json.loads] raises another exception
    (RecursionError, ValueError, UnicodeDecodeError) is not caught: the
    callback changes nothing in the session and the exception leaves it. *)
Theorem C9_malformed_message_is_skipped (raw : string) :
  (forall expression await_promise (st : ExecuteInApp.session),
     ExecuteInApp.on_message expression await_promise (NotJson raw) st
     = (st, Ok tt))
  /\ (forall max_logs compiled_pattern (st : ReadLogs.session),
        ReadLogs.on_message max_logs compiled_pattern (NotJson raw) st
        = (st, Ok tt))
  /\ (forall expression await_promise rest (st : ExecuteInApp.session),
        ExecuteInApp.run_forever expression await_promise
          (Received (NotJson raw) :: rest) st
        = ExecuteInApp.run_forever expression await_promise rest st)
  /\ (forall max_logs compiled_pattern rest (st : ReadLogs.session),
        ReadLogs.run_forever max_logs compiled_pattern
          (Received (NotJson raw) :: rest) st
        = ReadLogs.run_forever max_logs compiled_pattern rest st)
  /\ (forall expression await_promise e (st : ExecuteInApp.session),
        ExecuteInApp.on_message expression await_promise (Unloadable raw e) st
        = (st, Raise (load_exception e))
        /\ load_exception e <> JSONDecodeError)
  /\ (forall max_logs compiled_pattern e (st : ReadLogs.session),
        ReadLogs.on_message max_logs compiled_pattern (Unloadable raw e) st
        = (st, Raise (load_exception e))).
Proof.
  repeat split; intros; try reflexivity.
  - cbn [ExecuteInApp.run_forever ExecuteInApp.dispatch].
    destruct (ExecuteInApp.closed st) eqn:E; [|reflexivity].
    destruct rest; cbn [ExecuteInApp.run_forever]; now rewrite ?E.
  - cbn [ReadLogs.run_forever ReadLogs.dispatch].
    destruct (ReadLogs.closed st) eqn:E; [|reflexivity].
    destruct rest; cbn [ReadLogs.run_forever]; now rewrite ?E.
  - now destruct e.
  - now destruct e.
  - now destruct e.
Qed.

(** ** The resolver *)

Lemma find_app_none (id : string) (apps : list dict) :
  Forall (fun app => eq_str (get "id" app) id = false) apps ->
  ExecuteInApp.find_app id apps = None.
Proof.
  induction 1 as [|app apps Happ _ IH]; cbn [ExecuteInApp.find_app].
  - reflexivity.
  - now rewrite Happ.
Qed.

Lemma find_app_first (id : string) (apps : list dict) (app : dict) :
  first_match id apps app -> ExecuteInApp.find_app id apps = Some app.
Proof.
  intros (before & after & -> & Hid & Hbefore).
  induction Hbefore as [|other before Hother _ IH];
    cbn [ExecuteInApp.find_app List.app].
  - now rewrite Hid.
  - now rewrite Hother.
Qed.

(** Every candidate has its line in the listing. *)
Lemma candidate_list_complete (apps : list dict) (app : dict) :
  In app apps ->
  In ("  - " ++ str (get "id" app) ++ ": " ++ str (get "title" app))
     (candidate_list apps).
Proof.
  intros H. unfold candidate_list.
  exact (in_map (fun a => "  - " ++ str (get "id" a) ++ ": "
                            ++ str (get "title" a)) apps app H).
Qed.

(** C3, as stated, fails on an explicit id that is the empty text: it
    matches no candidate, and the single candidate is returned. *)
Lemma C3_counterexample :
  Forall (fun app => eq_str (get "id" app) "" = false) [Sample.app_a]
  /\ ExecuteInApp.resolve_app Sample.only_a (Some "") "http://localhost:8081"
     = ([], Return Sample.app_a)
  /\ ExecuteInApp.resolve_app Sample.only_a (Some "") "http://localhost:8081"
     <> TargetNotFound "" [Sample.app_a].
Proof.
  repeat split.
  - repeat constructor.
  - discriminate.
Qed.

(** C3 (amended): [resolve_app], the same in both scripts, fails with
    NoTargets on no candidate; with a non-empty explicit id it fails with
    TargetNotFound, listing every candidate, when no candidate has that id,
    and returns the first candidate that has it otherwise; with the id
    omitted or empty it returns a sole candidate and fails with
    AmbiguousTarget, listing every candidate, when there are several. *)
Theorem C3_resolve_app_cases (discover_apps : string -> list dict)
    (app_id : option string) (metro_url : string) :
  let apps := discover_apps metro_url in
  let outcome := ExecuteInApp.resolve_app discover_apps app_id metro_url in
  ReadLogs.resolve_app discover_apps app_id metro_url = outcome
  /\ (apps = [] -> outcome = NoTargets)
  /\ (forall id, app_id = Some id -> id <> "" -> apps <> [] ->
        Forall (fun app => eq_str (get "id" app) id = false) apps ->
        outcome = TargetNotFound id apps)
  /\ (forall id app, app_id = Some id -> id <> "" ->
        first_match id apps app -> outcome = ([], Return app))
  /\ (forall app, omitted app_id -> apps = [app] ->
        outcome = ([], Return app))
  /\ (omitted app_id -> (1 < List.length apps)%nat ->
        outcome = AmbiguousTarget apps).
Proof.
  intros apps outcome. split; [reflexivity|].
  subst outcome. unfold ExecuteInApp.resolve_app. cbv zeta.
  change (discover_apps metro_url) with apps. clearbody apps.
  assert (Hgiven : forall id, id <> "" -> ExecuteInApp.given (Some id) = Some id).
  { intros id Hne. cbn [ExecuteInApp.given].
    apply String.eqb_neq in Hne. now rewrite Hne. }
  assert (Homitted : omitted app_id -> ExecuteInApp.given app_id = None).
  { intros [-> | ->]; reflexivity. }
  repeat split.
  - now intros ->.
  - intros id -> Hne Happs Hall.
    destruct apps as [|a apps]; [congruence|].
    now rewrite (Hgiven id Hne), (find_app_none id _ Hall).
  - intros id app -> Hne Hfirst.
    rewrite (Hgiven id Hne), (find_app_first id _ _ Hfirst).
    destruct Hfirst as (before & after & -> & _).
    now destruct before.
  - intros app Hom ->. now rewrite (Homitted Hom).
  - intros Hom Hlen. rewrite (Homitted Hom).
    destruct apps as [|a [|b apps]]; cbn [List.length] in Hlen; try lia.
    reflexivity.
Qed.

(** C3 on two candidates: the second is found by its id, an unknown id and
    an omitted id are refused with the listing of both, and a sole candidate
    is chosen without an id. *)
Lemma C3_resolve_app_cases_witness :
  let both := fun _ : string => [Sample.app_a; Sample.app_b] in
  let sole := fun _ : string => [Sample.app_b] in
  let none := fun _ : string => @nil dict in
  ExecuteInApp.resolve_app none (Some "b") "" = NoTargets
  /\ ExecuteInApp.resolve_app both (Some "c") ""
     = TargetNotFound "c" [Sample.app_a; Sample.app_b]
  /\ ExecuteInApp.resolve_app both (Some "b") "" = ([], Return Sample.app_b)
  /\ ExecuteInApp.resolve_app sole None "" = ([], Return Sample.app_b)
  /\ ExecuteInApp.resolve_app both None ""
     = AmbiguousTarget [Sample.app_a; Sample.app_b].
Proof.
  intros both sole none.
  split; [| split; [| split; [| split]]].
  - apply (C3_resolve_app_cases none (Some "b") ""). reflexivity.
  - apply (C3_resolve_app_cases both (Some "c") "") with (id := "c").
    + reflexivity.
    + discriminate.
    + discriminate.
    + repeat constructor.
  - apply (C3_resolve_app_cases both (Some "b") "") with (id := "b").
    + reflexivity.
    + discriminate.
    + exists [Sample.app_a], []. repeat split. repeat constructor.
  - apply (C3_resolve_app_cases sole None ""); [now left | reflexivity].
  - apply (C3_resolve_app_cases both None ""); [now left | cbn; lia].
Defined.

(** ** Totality of the decoders *)




(** ** The evaluate response *)

(** C5, as stated, fails on an exception whose description is present and
    empty: the error is the text of the details, not the description. *)
Lemma C5_counterexample :
  ExecuteInApp.result
    (fst (ExecuteInApp.on_message "f()" true
            (Sample.exception_response "" "Uncaught") ExecuteInApp.initial))
  = {| ExecuteInApp.success := false;
       ExecuteInApp.output := JNull;
       ExecuteInApp.error := JStr "Uncaught" |}
  /\ ExecuteInApp.error
       (ExecuteInApp.result
          (fst (ExecuteInApp.on_message "f()" true
                  (Sample.exception_response "" "Uncaught")
                  ExecuteInApp.initial)))
     <> JStr "".
Proof. split; [reflexivity | discriminate]. Qed.

(** C5 (amended): on a response with id 2, an error object gives its
    message as the error; otherwise exception details in the result give as
    the error the description of the exception object when that is present
    and not empty (true in Python), else the text of the details when they
    have one, else "Exception", whether or not the result also has a nested
    result; otherwise a nested result is decoded by [format_result] into the
    output of a success, and a result with neither gives success with the
    output "undefined".  In each case the socket is then closed. *)
Theorem C5_evaluate_response (expression : string) (await_promise : bool)
    (st : ExecuteInApp.session) (data : dict) :
  eq_int (get "id" data) 1 = false ->
  eq_int (get "id" data) 2 = true ->
  let after := ExecuteInApp.on_message expression await_promise
                 (Json (JDict data)) st in
  let closing st' := (fst (ExecuteInApp.ws_close st'), Ok tt) in
  (forall err,
     lookup "error" data = Some (JDict err) ->
     (forall msg, lookup "message" err = Some msg ->
        after = closing (ExecuteInApp.set_error msg st))
     /\ (lookup "message" err = None ->
         after = closing (ExecuteInApp.set_error (JStr "Unknown error") st)))
  /\ (forall eval_result,
        lookup "error" data = None ->
        lookup "result" data = Some (JDict eval_result) ->
        (forall exc exc_obj,
           lookup "exceptionDetails" eval_result = Some (JDict exc) ->
           get_default "exception" (JDict []) exc = JDict exc_obj ->
           let description := get "description" exc_obj in
           (truthy description = true ->
            after = closing (ExecuteInApp.set_error description st))
           /\ (truthy description = false ->
               (forall text, lookup "text" exc = Some text ->
                  after = closing (ExecuteInApp.set_error text st))
               /\ (lookup "text" exc = None ->
                   after = closing (ExecuteInApp.set_error
                                      (JStr "Exception") st))))
        /\ (lookup "exceptionDetails" eval_result = None ->
            (forall inner out,
               lookup "result" eval_result = Some inner ->
               ExecuteInApp.format_result inner = Ok out ->
               after = closing (ExecuteInApp.set_output out
                                  (ExecuteInApp.set_success true st)))
            /\ (lookup "result" eval_result = None ->
                after = closing (ExecuteInApp.set_output (JStr "undefined")
                                   (ExecuteInApp.set_success true st))))).
Proof.
  intros Hid1 Hid2 after closing. subst after closing.
  unfold ExecuteInApp.on_message, try_except_pass, bindM, lift, json_loads,
    as_dict.
  rewrite Hid1, Hid2.
  unfold ExecuteInApp.on_evaluate_response, contains.
  split.
  - intros err Herr. rewrite Herr, (get_lookup _ _ _ Herr).
    unfold lift, bindM, as_dict, modify.
    split.
    + intros msg Hmsg. now rewrite (get_default_lookup _ _ _ _ Hmsg).
    + intros Hmsg. now rewrite (get_default_absent _ _ _ Hmsg).
  - intros eval_result Herr Hres. rewrite Herr, Hres, (get_lookup _ _ _ Hres).
    unfold lift, bindM, py_in, contains, subscript, modify.
    split.
    + intros exc exc_obj Hexc Hobj. rewrite Hexc.
      unfold ExecuteInApp.exception_message, as_dict, bind.
      rewrite Hobj.
      split.
      * now intros ->.
      * intros ->. split.
        -- intros text Htext. now rewrite (get_default_lookup _ _ _ _ Htext).
        -- intros Htext. now rewrite (get_default_absent _ _ _ Htext).
    + intros Hexc. rewrite Hexc. split.
      * intros inner out Hinner Hout. now rewrite Hinner, Hout.
      * intros Hinner. now rewrite Hinner.
Qed.

(** C5 on a response with a nested result and on one with exception
    details next to a nested result. *)
Lemma C5_evaluate_response_witness :
  ExecuteInApp.on_message "1+1" true (Sample.evaluate_response Sample.two)
    ExecuteInApp.initial
  = (fst (ExecuteInApp.ws_close
            (ExecuteInApp.set_output (JStr "2")
               (ExecuteInApp.set_success true ExecuteInApp.initial))), Ok tt)
  /\ ExecuteInApp.on_message "f()" true
       (Sample.exception_response "TypeError: f is not a function" "Uncaught")
       ExecuteInApp.initial
     = (fst (ExecuteInApp.ws_close
               (ExecuteInApp.set_error
                  (JStr "TypeError: f is not a function")
                  ExecuteInApp.initial)), Ok tt).
Proof.
  split.
  - pose proof (C5_evaluate_response "1+1" true ExecuteInApp.initial
                  [("id", JInt 2); ("result", JDict [("result", Sample.two)])]
                  eq_refl eq_refl) as H.
    cbv zeta in H. destruct H as [_ H].
    destruct (H [("result", Sample.two)] eq_refl eq_refl) as [_ H2].
    destruct (H2 eq_refl) as [H3 _].
    exact (H3 Sample.two (JStr "2") eq_refl eq_refl).
  - pose (exc_obj := [("type", JStr "object");
                      ("description", JStr "TypeError: f is not a function")]).
    pose (exc := [("text", JStr "Uncaught"); ("exception", JDict exc_obj)]).
    pose (eval_result := [("result", JDict [("type", JStr "object");
                                            ("subtype", JStr "error")]);
                          ("exceptionDetails", JDict exc)]).
    pose proof (C5_evaluate_response "f()" true ExecuteInApp.initial
                  [("id", JInt 2); ("result", JDict eval_result)]
                  eq_refl eq_refl) as H.
    cbv zeta in H. destruct H as [_ H].
    destruct (H eval_result eq_refl eq_refl) as [H2 _].
    destruct (H2 exc exc_obj eq_refl eq_refl) as [H3 _].
    exact (H3 eq_refl).
Defined.

(** ** Timeouts *)

(** C7: when the wait runs out ([thread.is_alive()] holds) and the session
    has neither a success nor an error, [execute_in_app] closes the socket
    and returns the timeout message as the error of a failure; [read_logs]
    then closes the socket and returns the records gathered so far, as they
    are. *)
Theorem C7_timeout (expression : string) (await_promise : bool)
    (max_logs : Z) (compiled_pattern : option (string -> bool))
    (events : list ws_event) :
  let st := ExecuteInApp.run_forever expression await_promise events
              ExecuteInApp.initial in
  let capture := ReadLogs.run_forever max_logs compiled_pattern events
                   ReadLogs.initial in
  (ExecuteInApp.success (ExecuteInApp.result st) = false ->
   ExecuteInApp.error (ExecuteInApp.result st) = JNull ->
   ExecuteInApp.execute_in_app expression await_promise events true
   = {| ExecuteInApp.success := false;
        ExecuteInApp.output := ExecuteInApp.output (ExecuteInApp.result st);
        ExecuteInApp.error := JStr ExecuteInApp.timeout_message |}
   /\ ExecuteInApp.closed
        (ExecuteInApp.execute_in_app_end expression await_promise events true)
      = true)
  /\ ReadLogs.read_logs max_logs compiled_pattern events true
     = ReadLogs.logs capture
  /\ ReadLogs.closed
       (ReadLogs.read_logs_end max_logs compiled_pattern events true)
     = true.
Proof.
  intros st capture. split; [|split; reflexivity].
  intros Hsuccess Herror.
  unfold ExecuteInApp.execute_in_app, ExecuteInApp.execute_in_app_end.
  cbv zeta. fold st.
  destruct st as [[success output error] id enabled sent closed].
  cbn in Hsuccess, Herror. subst success error. split; reflexivity.
Qed.

(** C7 on a session that only got to send the handshake request. *)
Lemma C7_timeout_witness :
  ExecuteInApp.execute_in_app "1+1" true [Opened] true
  = {| ExecuteInApp.success := false;
       ExecuteInApp.output := JNull;
       ExecuteInApp.error := JStr ExecuteInApp.timeout_message |}
  /\ ExecuteInApp.closed
       (ExecuteInApp.execute_in_app_end "1+1" true [Opened] true) = true.
Proof.
  apply (C7_timeout "1+1" true 100 None [Opened]); reflexivity.
Defined.

(** ** Log capture *)

(** C8: a console event whose joined text contains the marker leaves the
    session as it was, whatever the filter and the limit: no record is added
    and the socket is not closed. *)
Theorem C8_unsupported_client_message_dropped (max_logs : Z)
    (compiled_pattern : option (string -> bool)) (st : ReadLogs.session)
    (data params : dict) (text : string) :
  eq_str (get "method" data) "Runtime.consoleAPICalled" = true ->
  get_default "params" (JDict []) data = JDict params ->
  ReadLogs.join_args (get_default "args" (JList []) params) = Ok text ->
  substring_in ReadLogs.UNSUPPORTED_MSG text = true ->
  ReadLogs.on_message max_logs compiled_pattern (Json (JDict data)) st
  = (st, Ok tt).
Proof.
  intros Hmethod Hparams Htext Hmarker.
  unfold ReadLogs.on_message, try_except_pass, bindM, lift, json_loads, as_dict.
  now rewrite Hmethod, Hparams, Htext, Hmarker.
Qed.

(** C8 on an event whose only argument is the marker text. *)
Lemma C8_unsupported_client_message_dropped_witness :
  ReadLogs.on_message 1 None
    (Sample.console_event "warning"
       [Sample.string_arg ReadLogs.UNSUPPORTED_MSG])
    ReadLogs.initial
  = (ReadLogs.initial, Ok tt).
Proof.
  apply (C8_unsupported_client_message_dropped 1 None ReadLogs.initial _
           [("type", JStr "warning");
            ("args", JList [Sample.string_arg ReadLogs.UNSUPPORTED_MSG])]
           ReadLogs.UNSUPPORTED_MSG); reflexivity.
Defined.

(** C6: with the limit 0, the first console event is recorded before the
    count is compared with the limit: [read_logs] returns one record. *)
Theorem C6_limit_zero_returns_a_record :
  ReadLogs.read_logs 0 None
    [Opened; Received (Sample.console_event "log" [Sample.string_arg "hello"])]
    false
  = [{| ReadLogs.level := JStr "log";
        ReadLogs.text := "hello";
        ReadLogs.location := None |}].
Proof. reflexivity. Qed.

(** The callback leaves the session as it found it, with or without an
    exception. *)
Ltac unchanged :=
  left; try reflexivity;
  match goal with e : exn |- _ => destruct e; reflexivity end.

(** What one call of [on_message] does to the capture: nothing, or one more
    record, and then [close] if that record fills the limit. *)
Lemma on_message_step (max_logs : Z)
    (compiled_pattern : option (string -> bool)) (m : message)
    (st : ReadLogs.session) :
  let st' := fst (ReadLogs.on_message max_logs compiled_pattern m st) in
  st' = st
  \/ exists entry,
       let added := ReadLogs.append_log entry st in
       st' = if Z.of_nat (List.length (ReadLogs.logs added)) >=? max_logs
             then fst (ReadLogs.ws_close added) else added.
Proof.
  unfold ReadLogs.on_message, try_except_pass, bindM, lift, ret, gets, modify,
    json_loads.
  destruct m as [raw|data|raw why]; [now left| |left; now destruct why].
  destruct (as_dict data) as [d|e]; [|unchanged].
  destruct (eq_str _ _); [|unchanged].
  destruct (as_dict _) as [params|e]; [|unchanged].
  destruct (ReadLogs.join_args _) as [text|e]; [|unchanged].
  destruct (substring_in _ _); [unchanged|].
  destruct (ReadLogs.filtered_out _ _); [unchanged|].
  destruct (ReadLogs.location_of _ _) as [location|e]; [|unchanged].
  right.
  exists {| ReadLogs.level := get_default "type" (JStr "log") params;
            ReadLogs.text := text;
            ReadLogs.location := location |}.
  cbv zeta. unfold ReadLogs.ws_close, modify.
  destruct (_ >=? max_logs); reflexivity.
Qed.

Lemma dispatch_within_limit (max_logs : Z)
    (compiled_pattern : option (string -> bool)) (e : ws_event)
    (st : ReadLogs.session) :
  ReadLogs.closed st = false ->
  within_limit max_logs st ->
  within_limit max_logs (ReadLogs.dispatch max_logs compiled_pattern e st).
Proof.
  unfold within_limit. intros Hopen Hst. rewrite Hopen in Hst.
  destruct e as [|m|err]; cbn [ReadLogs.dispatch].
  - cbn. now rewrite Hopen.
  - destruct (on_message_step max_logs compiled_pattern m st) as [-> | [entry ->]].
    + now rewrite Hopen.
    + cbv zeta. cbn [ReadLogs.append_log ReadLogs.logs].
      rewrite length_app, Nat2Z.inj_add. cbn [List.length].
      destruct (_ >=? max_logs) eqn:E; rewrite Z.geb_leb in E;
        [apply Z.leb_le in E | apply Z.leb_gt in E];
        cbn; rewrite ?Hopen, length_app, Nat2Z.inj_add; cbn [List.length]; lia.
  - cbn. now rewrite Hopen.
Qed.

Lemma run_forever_within_limit (max_logs : Z)
    (compiled_pattern : option (string -> bool)) (events : list ws_event) :
  forall st,
    within_limit max_logs st ->
    within_limit max_logs
      (ReadLogs.run_forever max_logs compiled_pattern events st).
Proof.
  induction events as [|e events IH]; intros st Hst; cbn [ReadLogs.run_forever].
  - exact Hst.
  - destruct (ReadLogs.closed st) eqn:Hopen; [exact Hst|].
    apply IH. now apply dispatch_within_limit.
Qed.

(** With a limit of at least 1, [read_logs] returns at most that many
    records, and the read loop has closed the socket exactly when it has
    that many. *)
Lemma read_logs_at_most (max_logs : Z)
    (compiled_pattern : option (string -> bool)) (events : list ws_event)
    (is_alive : bool) :
  1 <= max_logs ->
  Z.of_nat (List.length
              (ReadLogs.read_logs max_logs compiled_pattern events is_alive))
  <= max_logs
  /\ within_limit max_logs
       (ReadLogs.run_forever max_logs compiled_pattern events ReadLogs.initial).
Proof.
  intros Hmax.
  assert (H : within_limit max_logs
                (ReadLogs.run_forever max_logs compiled_pattern events
                   ReadLogs.initial)).
  { apply run_forever_within_limit. unfold within_limit. cbn. lia. }
  split; [|exact H].
  unfold ReadLogs.read_logs, ReadLogs.read_logs_end. cbv zeta.
  unfold within_limit in H.
  destruct is_alive; cbn [ReadLogs.ws_close modify fst ReadLogs.logs];
    destruct (ReadLogs.closed _); lia.
Qed.

(** ** The handshake flag *)

(** [on_message] never reads [runtime_enabled]: on a message other than the
    response with id 1, it does the same with the flag set or unset. *)
Lemma on_message_ignores_runtime_enabled (expression : string)
    (await_promise : bool) (data : dict) (b : bool)
    (st : ExecuteInApp.session) :
  eq_int (get "id" data) 1 = false ->
  ExecuteInApp.on_message expression await_promise (Json (JDict data))
    (ExecuteInApp.set_runtime_enabled b st)
  = let (st', r) := ExecuteInApp.on_message expression await_promise
                      (Json (JDict data)) st in
    (ExecuteInApp.set_runtime_enabled b st', r).
Proof.
  intros Hid.
  unfold ExecuteInApp.on_message, try_except_pass, bindM, lift, ret,
    json_loads, as_dict.
  rewrite Hid.
  destruct (eq_int _ 2); [|reflexivity].
  unfold ExecuteInApp.on_evaluate_response, bindM, lift, ret, modify,
    ExecuteInApp.ws_close.
  repeat match goal with
         | |- context [if ?c then _ else _] => destruct c
         | |- context [match ?x with Ok _ => _ | Raise _ => _ end] =>
             destruct x
         | e : exn |- _ => destruct e
         end; reflexivity.
Qed.

(** * Further properties of the scripts *)

(** ** Discovery *)

Lemma rstrip_by_all (drop : ascii -> bool) (s : string) :
  Text.all_chars drop s = true -> Text.rstrip_by drop s = "".
Proof.
  induction s as [|c s IH]; cbn [Text.all_chars Text.rstrip_by].
  - reflexivity.
  - intros H. apply andb_true_iff in H. destruct H as [Hc Hs].
    now rewrite (IH Hs), Hc.
Qed.

Lemma rstrip_by_app (drop : ascii -> bool) (s tail : string) :
  Text.all_chars drop tail = true ->
  Text.rstrip_by drop (s ++ tail) = Text.rstrip_by drop s.
Proof.
  intros Htail. induction s as [|c s IH].
  - now apply rstrip_by_all.
  - change (String c s ++ tail) with (String c (s ++ tail)).
    cbn [Text.rstrip_by]. now rewrite IH.
Qed.

(** X4: slashes at the end of the Metro URL do not change the URL that is
    asked for. *)
Theorem request_url_trailing_slashes (metro_url slashes : string) :
  Text.all_chars (Ascii.eqb "/") slashes = true ->
  Metro.request_url (metro_url ++ slashes) = Metro.request_url metro_url.
Proof.
  intros H. unfold Metro.request_url, Text.rstrip.
  now rewrite (rstrip_by_app _ _ _ H).
Qed.

Lemma request_url_trailing_slashes_witness :
  Metro.request_url "http://localhost:8081//" = "http://localhost:8081/json".
Proof.
  exact (request_url_trailing_slashes "http://localhost:8081" "//" eq_refl).
Defined.

(** The comprehension keeps the apps that pass the test, in their order. *)
Lemma select_filter (items : list json) :
  forall apps,
    Metro.select items = Ok apps ->
    map JDict apps
    = List.filter (fun item => match Metro.is_react_native item with
                               | Ok true => true
                               | _ => false
                               end) items.
Proof.
  induction items as [|item items IH]; cbn [Metro.select List.filter];
    intros apps H.
  - injection H as <-. reflexivity.
  - unfold bind in H.
    destruct (Metro.is_react_native item) as [keep|e]; [|discriminate].
    destruct item; try discriminate. cbn [as_dict] in H.
    destruct (Metro.select items) as [rest|e]; [|discriminate].
    injection H as <-.
    destruct keep; cbn [map]; now rewrite (IH rest eq_refl).
Qed.

Lemma react_native_apps_list (apps : json) (found : list dict) :
  Metro.react_native_apps apps = Ok found ->
  found <> [] ->
  exists items, apps = JList items /\ Metro.select items = Ok found.
Proof.
  unfold Metro.react_native_apps, bind. intros H Hne.
  destruct apps as [| | | |s|items|d]; cbn [iterate] in H; try discriminate.
  - destruct s as [|c s]; cbn in H.
    + injection H as <-. contradiction.
    + discriminate.
  - now exists items.
  - destruct d as [|[k v] d]; cbn in H.
    + injection H as <-. contradiction.
    + discriminate.
Qed.

(** X1: every app that the flows' [discover_apps] returns is an element of
    the JSON array Metro answered with, and passes the React Native test;
    the apps keep the order of the array. *)
Theorem discover_apps_sound (urlopen : string -> Metro.response)
    (metro_url : string) :
  let found := ExecuteInAppCli.discover_apps urlopen metro_url in
  ReadLogsCli.discover_apps urlopen metro_url = found
  /\ (found <> [] ->
      exists items,
        urlopen (Metro.request_url metro_url) = Metro.Body (Json (JList items))
        /\ map JDict found
           = List.filter (fun item => match Metro.is_react_native item with
                                      | Ok true => true
                                      | _ => false
                                      end) items).
Proof.
  intros found. split; [reflexivity|].
  subst found. unfold ExecuteInAppCli.discover_apps.
  destruct (urlopen _) as [reason|m]; [congruence|].
  destruct (Metro.parse_apps m) as [apps|e] eqn:E; [|congruence].
  intros Hne. unfold Metro.parse_apps, bind in E.
  destruct m as [raw|data|raw why]; cbn [json_loads] in E;
    [discriminate| |discriminate].
  destruct (react_native_apps_list _ _ E Hne) as (items & -> & Hsel).
  exists items. split; [reflexivity|]. now apply select_filter.
Qed.

(** X2: the [discover_apps] of both flows returns what the one of
    discover_apps.py returns, and the empty list where that one exits or
    raises. *)
Theorem discover_apps_flows_vs_script (urlopen : string -> Metro.response)
    (decode_error : message -> string) (metro_url : string) :
  let script :=
    match snd (DiscoverApps.discover_apps urlopen decode_error metro_url) with
    | Ok (Return apps) => apps
    | _ => []
    end in
  ExecuteInAppCli.discover_apps urlopen metro_url = script
  /\ ReadLogsCli.discover_apps urlopen metro_url = script.
Proof.
  unfold ExecuteInAppCli.discover_apps, ReadLogsCli.discover_apps,
    DiscoverApps.discover_apps.
  destruct (urlopen _) as [reason|m]; [now split|].
  destruct (Metro.parse_apps m) as [apps|[]]; now split.
Qed.

(** X3: when Metro cannot be reached or answers with something that is no
    JSON document, [resolve_app] of both flows reports that no app is
    connected, whatever id was asked for. *)
Theorem resolve_app_metro_down (urlopen : string -> Metro.response)
    (app_id : option string) (metro_url : string) :
  (exists reason,
     urlopen (Metro.request_url metro_url) = Metro.Unreachable reason)
  \/ (exists raw,
        urlopen (Metro.request_url metro_url) = Metro.Body (NotJson raw)) ->
  ExecuteInApp.resolve_app (ExecuteInAppCli.discover_apps urlopen)
    app_id metro_url = NoTargets
  /\ ReadLogs.resolve_app (ReadLogsCli.discover_apps urlopen)
       app_id metro_url = NoTargets.
Proof.
  intros H.
  assert (E : ExecuteInAppCli.discover_apps urlopen metro_url = []).
  { unfold ExecuteInAppCli.discover_apps.
    destruct H as [[reason ->] | [raw ->]]; reflexivity. }
  split.
  - unfold ExecuteInApp.resolve_app. now rewrite E.
  - unfold ReadLogs.resolve_app.
    change (ReadLogsCli.discover_apps urlopen metro_url)
      with (ExecuteInAppCli.discover_apps urlopen metro_url).
    now rewrite E.
Qed.

Lemma resolve_app_metro_down_witness :
  ExecuteInApp.resolve_app
    (ExecuteInAppCli.discover_apps (fun _ => Metro.Unreachable "refused"))
    (Some "a") "http://localhost:8081" = NoTargets.
Proof.
  apply (resolve_app_metro_down (fun _ => Metro.Unreachable "refused")
           (Some "a") "http://localhost:8081").
  left. now exists "refused".
Defined.

Lemma discover_apps_sound_witness :
  map JDict (ExecuteInAppCli.discover_apps MetroSample.urlopen
               "http://localhost:8081/")
  = [JDict MetroSample.flagged_app; JDict MetroSample.described_app].
Proof.
  destruct (discover_apps_sound MetroSample.urlopen "http://localhost:8081/")
    as [_ H].
  destruct H as (items & Hanswer & Hfound); [discriminate|].
  injection Hanswer as <-. exact Hfound.
Defined.



(** X6: when the first element of Metro's array is not an object, [main] of
    discover_apps.py ends on an AttributeError that nothing catches, with
    nothing printed; the flows take the same answer for no app. *)
Theorem discover_non_object_element (urlopen : string -> Metro.response)
    (decode_error : message -> string) (metro_url : string) (as_json : bool)
    (item : json) (rest : list json) :
  urlopen (Metro.request_url metro_url)
  = Metro.Body (Json (JList (item :: rest))) ->
  (forall d, item <> JDict d) ->
  DiscoverApps.main urlopen decode_error metro_url as_json
  = {| Process.stdout := []; Process.stderr := [];
       Process.exit := Process.Uncaught AttributeError |}
  /\ ExecuteInAppCli.discover_apps urlopen metro_url = [].
Proof.
  intros Hanswer Hitem.
  unfold DiscoverApps.main, DiscoverApps.discover_apps,
    ExecuteInAppCli.discover_apps.
  rewrite Hanswer.
  assert (E : Metro.parse_apps (Json (JList (item :: rest)))
              = Raise AttributeError).
  { unfold Metro.parse_apps, Metro.react_native_apps. cbn.
    unfold Metro.is_react_native.
    destruct item; try reflexivity. now destruct (Hitem fields). }
  now rewrite E.
Qed.

Lemma discover_non_object_element_witness :
  DiscoverApps.main (fun _ => Metro.Body (Json (JList [JStr "a"])))
    (fun _ => "") "http://localhost:8081" true
  = {| Process.stdout := []; Process.stderr := [];
       Process.exit := Process.Uncaught AttributeError |}.
Proof.
  apply (discover_non_object_element
           (fun _ => Metro.Body (Json (JList [JStr "a"]))) (fun _ => "")
           "http://localhost:8081" true (JStr "a") []).
  - reflexivity.
  - discriminate.
Defined.

(** ** More on the resolver *)

Lemma find_app_Some (id : string) (apps : list dict) (app : dict) :
  ExecuteInApp.find_app id apps = Some app -> first_match id apps app.
Proof.
  induction apps as [|a apps IH]; cbn [ExecuteInApp.find_app].
  - discriminate.
  - destruct (eq_str (get "id" a) id) eqn:E.
    + intros H. injection H as <-. exists [], apps. now repeat split.
    + intros H. destruct (IH H) as (before & after & -> & Hid & Hbefore).
      exists (a :: before), after. repeat split; trivial.
      now constructor.
Qed.

Lemma first_match_In (id : string) (apps : list dict) (app : dict) :
  first_match id apps app -> In app apps /\ get "id" app = JStr id.
Proof.
  intros (before & after & -> & Hid & _). split.
  - apply in_or_app. right. now left.
  - destruct (get "id" app); try discriminate.
    cbn [eq_str] in Hid. apply String.eqb_eq in Hid. now subst.
Qed.

Lemma resolve_app_ends (discover_apps : string -> list dict)
    (app_id : option string) (metro_url : string) :
  match ExecuteInApp.resolve_app discover_apps app_id metro_url with
  | (err, Return app) => err = [] /\ In app (discover_apps metro_url)
  | (err, SysExit status) => status = 1 /\ (2 <= List.length err)%nat
  end.
Proof.
  unfold ExecuteInApp.resolve_app. cbv zeta.
  destruct (discover_apps metro_url) as [|a apps] eqn:E.
  - cbn. split; [reflexivity | lia].
  - destruct (ExecuteInApp.given app_id) as [id|].
    + destruct (ExecuteInApp.find_app id (a :: apps)) as [app|] eqn:F.
      * split; [reflexivity|].
        exact (proj1 (first_match_In _ _ _ (find_app_Some _ _ _ F))).
      * cbn. split; [reflexivity | lia].
    + destruct apps as [|b apps].
      * split; [reflexivity | now left].
      * cbn. split; [reflexivity | lia].
Qed.

(** X7: [resolve_app] returns only an app that [discover_apps] found, and
    then prints nothing; when it does not return, it exits with status 1
    after printing at least two lines. *)
Theorem resolve_app_outcome (discover_apps : string -> list dict)
    (app_id : option string) (metro_url : string) :
  match ExecuteInApp.resolve_app discover_apps app_id metro_url with
  | (err, Return app) => err = [] /\ In app (discover_apps metro_url)
  | (err, SysExit status) => status = 1 /\ (2 <= List.length err)%nat
  end.
Proof. apply resolve_app_ends. Qed.

(** X8: with a non-empty id, an app that [resolve_app] returns is the first
    found app with that id; no other app is ever taken in its place, also
    when it is the only one. *)
Theorem resolve_app_by_id (discover_apps : string -> list dict)
    (id metro_url : string) (err : list string) (app : dict) :
  id <> "" ->
  ExecuteInApp.resolve_app discover_apps (Some id) metro_url
  = (err, Return app) ->
  first_match id (discover_apps metro_url) app /\ get "id" app = JStr id.
Proof.
  intros Hne. unfold ExecuteInApp.resolve_app. cbv zeta.
  cbn [ExecuteInApp.given]. apply String.eqb_neq in Hne. rewrite Hne.
  destruct (discover_apps metro_url) as [|a apps]; [discriminate|].
  destruct (ExecuteInApp.find_app id (a :: apps)) as [found|] eqn:F;
    [|discriminate].
  intros H. injection H as _ <-.
  pose proof (find_app_Some _ _ _ F) as Hfirst.
  split; [exact Hfirst | exact (proj2 (first_match_In _ _ _ Hfirst))].
Qed.

Lemma resolve_app_by_id_witness :
  get "id" Sample.app_b = JStr "b".
Proof.
  apply (resolve_app_by_id (fun _ => [Sample.app_a; Sample.app_b]) "b" ""
           [] Sample.app_b).
  - discriminate.
  - reflexivity.
Defined.

(** ** More on the decoders *)

(** X9: the two decoders give the same answer on every object that does
    not carry both an inline value and a description. *)
Theorem decoders_agree (d : dict) :
  lookup "value" d = None \/ lookup "description" d = None ->
  ExecuteInApp.format_result (JDict d)
  = ReadLogs.format_remote_object (JDict d).
Proof.
  intros H.
  unfold ExecuteInApp.format_result, ReadLogs.format_remote_object,
    as_dict, bind.
  destruct (eq_str _ "undefined"); [reflexivity|].
  destruct (eq_str _ "null"); [reflexivity|].
  unfold contains.
  destruct H as [-> | ->].
  - now destruct (lookup "description" d).
  - now destruct (lookup "value" d).
Qed.

Lemma decoders_agree_witness :
  ExecuteInApp.format_result (Sample.string_arg "hello")
  = ReadLogs.format_remote_object (Sample.string_arg "hello").
Proof.
  apply (decoders_agree [("type", JStr "string"); ("value", JStr "hello")]).
  now right.
Defined.

Lemma format_string_args (texts : list string) :
  mapM ReadLogs.format_remote_object (map Sample.string_arg texts)
  = Ok (map JStr texts).
Proof.
  induction texts as [|t texts IH]; cbn [map mapM].
  - reflexivity.
  - rewrite IH. reflexivity.
Qed.

Lemma as_str_strings (texts : list string) :
  mapM as_str (map JStr texts) = Ok texts.
Proof.
  induction texts as [|t texts IH]; cbn [map mapM].
  - reflexivity.
  - rewrite IH. reflexivity.
Qed.

(** X10: the text of a console call on strings is these strings, as they
    are, with one space between two of them. *)
Theorem join_args_strings (texts : list string) :
  ReadLogs.join_args (JList (map Sample.string_arg texts))
  = Ok (join " " texts).
Proof.
  unfold ReadLogs.join_args. cbn [iterate bind].
  rewrite format_string_args. cbn [bind].
  rewrite as_str_strings. reflexivity.
Qed.

(** ** More on the evaluation session *)

Lemma capture_closed_stays (max_logs : Z)
    (compiled_pattern : option (string -> bool)) (events : list ws_event)
    (st : ReadLogs.session) :
  ReadLogs.closed st = true ->
  ReadLogs.run_forever max_logs compiled_pattern events st = st.
Proof.
  destruct events as [|e events]; intros H; cbn [ReadLogs.run_forever];
    now rewrite ?H.
Qed.

Lemma capture_app (max_logs : Z)
    (compiled_pattern : option (string -> bool))
    (first second : list ws_event) :
  forall st,
    ReadLogs.run_forever max_logs compiled_pattern (first ++ second) st
    = ReadLogs.run_forever max_logs compiled_pattern second
        (ReadLogs.run_forever max_logs compiled_pattern first st).
Proof.
  induction first as [|e first IH]; intros st;
    cbn [List.app ReadLogs.run_forever].
  - reflexivity.
  - destruct (ReadLogs.closed st) eqn:E; [|apply IH].
    symmetry. now apply capture_closed_stays.
Qed.

(** Breaks the body of a callback into its cases. *)
Ltac callback_cases :=
  repeat match goal with
         | |- context [if ?c then _ else _] => destruct c eqn:?
         | |- context [match ?x with Ok _ => _ | Raise _ => _ end] =>
             destruct x eqn:?
         | e : exn |- _ => destruct e
         end.

(** What a callback may do to the result: leave it, write its error, or
    come to a result with the success flag set. *)
Lemma dispatch_result (expression : string) (await_promise : bool)
    (e : ws_event) (st : ExecuteInApp.session) :
  let r := ExecuteInApp.result st in
  let r' := ExecuteInApp.result
              (ExecuteInApp.dispatch expression await_promise e st) in
  (ExecuteInApp.success r' = ExecuteInApp.success r
   /\ ExecuteInApp.output r' = ExecuteInApp.output r)
  \/ ExecuteInApp.success r' = true.
Proof.
  destruct e as [|m|err]; cbn [ExecuteInApp.dispatch]; try (now left).
  unfold ExecuteInApp.on_message, try_except_pass, bindM, lift, ret,
    json_loads, as_dict.
  destruct m as [raw|data|raw why]; [now left| |left; now destruct why].
  destruct data; try (now left).
  destruct (eq_int _ 1); [now left|].
  destruct (eq_int _ 2); [|now left].
  unfold ExecuteInApp.on_evaluate_response, bindM, lift, ret, modify,
    ExecuteInApp.ws_close.
  callback_cases; cbn; auto.
Qed.

(** X11: whatever the socket brings, the result that [execute_in_app]
    returns has an output only with the success flag set; and when the wait
    ran out, it has the success flag set or an error that is true in
    Python, never neither. *)
Theorem execute_in_app_result_shape (expression : string)
    (await_promise : bool) (events : list ws_event) (is_alive : bool) :
  let r := ExecuteInApp.execute_in_app expression await_promise events
             is_alive in
  (ExecuteInApp.success r = false -> ExecuteInApp.output r = JNull)
  /\ (is_alive = true ->
      ExecuteInApp.success r = true \/ truthy (ExecuteInApp.error r) = true).
Proof.
  assert (Hrun : forall evs st,
             (ExecuteInApp.success (ExecuteInApp.result st) = false ->
              ExecuteInApp.output (ExecuteInApp.result st) = JNull) ->
             let st' := ExecuteInApp.run_forever expression await_promise
                          evs st in
             ExecuteInApp.success (ExecuteInApp.result st') = false ->
             ExecuteInApp.output (ExecuteInApp.result st') = JNull).
  { induction evs as [|e evs IH]; intros st Hst;
      cbn [ExecuteInApp.run_forever]; [exact Hst|].
    destruct (ExecuteInApp.closed st); [exact Hst|].
    apply IH.
    destruct (dispatch_result expression await_promise e st)
      as [[Hs Ho] | Hs]; cbv zeta in *.
    - rewrite Hs, Ho. exact Hst.
    - rewrite Hs. discriminate. }
  intros r. subst r.
  unfold ExecuteInApp.execute_in_app, ExecuteInApp.execute_in_app_end.
  cbv zeta.
  pose proof (Hrun events ExecuteInApp.initial (fun _ => eq_refl)) as H.
  cbv zeta in H.
  destruct (ExecuteInApp.run_forever expression await_promise events
              ExecuteInApp.initial)
    as [[success output error] id enabled sent closed].
  cbn in H. destruct is_alive; cbn.
  - destruct success; cbn.
    + split; [discriminate | now left].
    + destruct (truthy error) eqn:T; cbn.
      * split; [exact H | intros _; now right].
      * split; [exact H | intros _; now right].
  - split; [exact H | discriminate].
Qed.

Lemma execute_in_app_result_shape_witness :
  ExecuteInApp.output
    (ExecuteInApp.execute_in_app "f()" true
       [Opened; Received (Sample.exception_response "boom" "Uncaught")]
       false)
  = JNull.
Proof.
  apply (execute_in_app_result_shape "f()" true
           [Opened; Received (Sample.exception_response "boom" "Uncaught")]
           false).
  reflexivity.
Defined.

Lemma dispatch_other (expression : string) (await_promise : bool)
    (e : ws_event) (st : ExecuteInApp.session) :
  is_evaluate_response e = false ->
  let st' := ExecuteInApp.dispatch expression await_promise e st in
  ExecuteInApp.closed st' = ExecuteInApp.closed st
  /\ ExecuteInApp.success (ExecuteInApp.result st')
     = ExecuteInApp.success (ExecuteInApp.result st)
  /\ ExecuteInApp.output (ExecuteInApp.result st')
     = ExecuteInApp.output (ExecuteInApp.result st).
Proof.
  intros He.
  destruct e as [|m|err]; cbn [ExecuteInApp.dispatch]; try (now repeat split).
  unfold ExecuteInApp.on_message, try_except_pass, bindM, lift, ret,
    json_loads, as_dict.
  destruct m as [raw|data|raw why];
    [now repeat split| |destruct why; now repeat split].
  destruct data; try (now repeat split).
  cbn [is_evaluate_response] in He.
  destruct (eq_int _ 1); [now repeat split|].
  cbn [negb andb] in He. rewrite He. now repeat split.
Qed.

(** X12: as long as no response to the evaluate request comes, the
    callbacks neither close the socket nor set the success flag or the
    output, whatever else comes; [execute_in_app] then returns a failure
    without output. *)
Theorem no_evaluate_response_no_result (expression : string)
    (await_promise : bool) (events : list ws_event) (is_alive : bool) :
  forallb (fun e => negb (is_evaluate_response e)) events = true ->
  ExecuteInApp.closed
    (ExecuteInApp.run_forever expression await_promise events
       ExecuteInApp.initial) = false
  /\ ExecuteInApp.success
       (ExecuteInApp.execute_in_app expression await_promise events is_alive)
     = false
  /\ ExecuteInApp.output
       (ExecuteInApp.execute_in_app expression await_promise events is_alive)
     = JNull.
Proof.
  intros Hev.
  assert (Hrun : forall evs st,
             forallb (fun e => negb (is_evaluate_response e)) evs = true ->
             let st' := ExecuteInApp.run_forever expression await_promise
                          evs st in
             ExecuteInApp.closed st' = ExecuteInApp.closed st
             /\ ExecuteInApp.success (ExecuteInApp.result st')
                = ExecuteInApp.success (ExecuteInApp.result st)
             /\ ExecuteInApp.output (ExecuteInApp.result st')
                = ExecuteInApp.output (ExecuteInApp.result st)).
  { induction evs as [|e evs IH]; intros st H;
      cbn [ExecuteInApp.run_forever]; [now repeat split|].
    cbn [forallb] in H. apply andb_true_iff in H. destruct H as [He Hevs].
    apply negb_true_iff in He.
    destruct (ExecuteInApp.closed st) eqn:Hc; [now repeat split|].
    destruct (IH (ExecuteInApp.dispatch expression await_promise e st) Hevs)
      as (H1 & H2 & H3).
    destruct (dispatch_other expression await_promise e st He)
      as (G1 & G2 & G3).
    cbv zeta in *. rewrite H1, H2, H3, G1, G2, G3. now repeat split. }
  destruct (Hrun events ExecuteInApp.initial Hev) as (H1 & H2 & H3).
  cbv zeta in *. split; [exact H1|].
  unfold ExecuteInApp.execute_in_app, ExecuteInApp.execute_in_app_end.
  cbv zeta.
  destruct (ExecuteInApp.run_forever expression await_promise events
              ExecuteInApp.initial)
    as [[success output error] id enabled sent closed].
  cbn in H2, H3. subst success output.
  destruct is_alive; cbn; [|now split].
  destruct (truthy error); now split.
Qed.

Lemma no_evaluate_response_no_result_witness :
  ExecuteInApp.success
    (ExecuteInApp.execute_in_app "1+1" true
       [Opened; Received Sample.enable_response;
        Received (Sample.console_event "log" [Sample.string_arg "x"]);
        Failed "reset"] false)
  = false.
Proof.
  apply (no_evaluate_response_no_result "1+1" true
           [Opened; Received Sample.enable_response;
            Received (Sample.console_event "log" [Sample.string_arg "x"]);
            Failed "reset"] false).
  reflexivity.
Defined.

(** What [on_message] may do to the requests and the handshake flag: leave
    them, or set the flag and send the evaluate request. *)
Lemma on_message_sent (expression : string) (await_promise : bool)
    (m : message) (st : ExecuteInApp.session) :
  let st' := fst (ExecuteInApp.on_message expression await_promise m st) in
  (ExecuteInApp.sent st' = ExecuteInApp.sent st
   /\ ExecuteInApp.runtime_enabled st' = ExecuteInApp.runtime_enabled st)
  \/ (ExecuteInApp.sent st'
      = (ExecuteInApp.sent st
           ++ [ExecuteInApp.evaluate_request expression await_promise])%list
      /\ ExecuteInApp.runtime_enabled st' = true).
Proof.
  unfold ExecuteInApp.on_message, try_except_pass, bindM, lift, ret,
    json_loads, as_dict.
  destruct m as [raw|data|raw why]; [now left| |left; now destruct why].
  destruct data; try (now left).
  destruct (eq_int _ 1); [now right|].
  destruct (eq_int _ 2); [|now left].
  unfold ExecuteInApp.on_evaluate_response, bindM, lift, ret, modify,
    ExecuteInApp.ws_close.
  callback_cases; cbn; auto.
Qed.

(** X13: at every point of a session, the evaluate request is among the
    requests sent exactly when the handshake flag is set, and every request
    sent is that one or a [Runtime.enable]. *)
Theorem evaluate_sent_iff_enabled (expression : string)
    (await_promise : bool) (events : list ws_event) :
  let st := ExecuteInApp.run_forever expression await_promise events
              ExecuteInApp.initial in
  (ExecuteInApp.runtime_enabled st = true
   <-> In (ExecuteInApp.evaluate_request expression await_promise)
          (ExecuteInApp.sent st))
  /\ Forall (fun request =>
               is_enable_request request = true
               \/ request
                  = ExecuteInApp.evaluate_request expression await_promise)
            (ExecuteInApp.sent st).
Proof.
  set (evaluate := ExecuteInApp.evaluate_request expression await_promise).
  set (good := fun st =>
         (ExecuteInApp.runtime_enabled st = true
          <-> In evaluate (ExecuteInApp.sent st))
         /\ Forall (fun request => is_enable_request request = true
                                   \/ request = evaluate)
                   (ExecuteInApp.sent st)).
  assert (Hstep : forall e st,
             good st ->
             good (ExecuteInApp.dispatch expression await_promise e st)).
  { intros e st [Hflag Hall]. destruct e as [|m|err];
      cbn [ExecuteInApp.dispatch].
    - split; cbn.
      + rewrite Hflag. split; intros H.
        * apply in_or_app. now left.
        * apply in_app_or in H. destruct H as [H|[H|[]]]; [exact H|].
          discriminate.
      + apply Forall_app. split; [exact Hall|].
        constructor; [now left | constructor].
    - destruct (on_message_sent expression await_promise m st)
        as [[Hs Hf] | [Hs Hf]]; cbv zeta in *; split.
      + now rewrite Hs, Hf.
      + now rewrite Hs.
      + rewrite Hs, Hf. split; [|reflexivity].
        intros _. apply in_or_app. right. now left.
      + rewrite Hs. apply Forall_app. split; [exact Hall|].
        constructor; [now right | constructor].
    - split; [exact Hflag | exact Hall]. }
  assert (Hrun : forall evs st,
             good st ->
             good (ExecuteInApp.run_forever expression await_promise evs st)).
  { induction evs as [|e evs IH]; intros st Hst;
      cbn [ExecuteInApp.run_forever]; [exact Hst|].
    destruct (ExecuteInApp.closed st); [exact Hst|].
    apply IH. now apply Hstep. }
  apply (Hrun events ExecuteInApp.initial).
  split; cbn.
  - split; [discriminate | contradiction].
  - constructor.
Qed.

(** ** More on log capture *)

Lemma location_of_level (level : json) (params : dict) (loc : string) :
  ReadLogs.location_of level params = Ok (Some loc) ->
  eq_str level "error" = true \/ eq_str level "warning" = true.
Proof.
  unfold ReadLogs.location_of.
  destruct ((eq_str level "error" || eq_str level "warning")
            && contains "stackTrace" params) eqn:E; [|discriminate].
  intros _. apply andb_true_iff in E. destruct E as [E _].
  now apply orb_true_iff in E.
Qed.

(** One call of [on_message] adds nothing or one admissible record, and
    sends nothing. *)
Lemma on_message_record (max_logs : Z)
    (compiled_pattern : option (string -> bool)) (m : message)
    (st : ReadLogs.session) :
  let st' := fst (ReadLogs.on_message max_logs compiled_pattern m st) in
  st' = st
  \/ exists entry,
       admissible compiled_pattern entry
       /\ ReadLogs.logs st' = (ReadLogs.logs st ++ [entry])%list
       /\ ReadLogs.sent st' = ReadLogs.sent st.
Proof.
  unfold ReadLogs.on_message, try_except_pass, bindM, lift, ret, gets, modify,
    json_loads.
  destruct m as [raw|data|raw why]; [now left| |left; now destruct why].
  destruct (as_dict data) as [d|e]; [|unchanged].
  destruct (eq_str _ _); [|unchanged].
  destruct (as_dict _) as [params|e]; [|unchanged].
  destruct (ReadLogs.join_args _) as [text|e]; [|unchanged].
  destruct (substring_in _ _) eqn:Hmarker; [unchanged|].
  destruct (ReadLogs.filtered_out _ _) eqn:Hfilter; [unchanged|].
  destruct (ReadLogs.location_of _ _) as [location|e] eqn:Hloc; [|unchanged].
  right.
  exists {| ReadLogs.level := get_default "type" (JStr "log") params;
            ReadLogs.text := text;
            ReadLogs.location := location |}.
  split.
  - repeat split; cbn; trivial.
    destruct location as [loc|]; [|congruence].
    intros _. exact (location_of_level _ _ _ Hloc).
  - unfold ReadLogs.ws_close, modify.
    destruct (_ >=? max_logs); now split.
Qed.

Lemma dispatch_record (max_logs : Z)
    (compiled_pattern : option (string -> bool)) (e : ws_event)
    (st : ReadLogs.session) :
  let st' := ReadLogs.dispatch max_logs compiled_pattern e st in
  (ReadLogs.logs st' = ReadLogs.logs st
   \/ exists entry,
        admissible compiled_pattern entry
        /\ ReadLogs.logs st' = (ReadLogs.logs st ++ [entry])%list)
  /\ (ReadLogs.sent st' = ReadLogs.sent st
      \/ exists id,
           ReadLogs.sent st'
           = (ReadLogs.sent st
                ++ [JDict [("id", JInt id);
                           ("method", JStr "Runtime.enable")]])%list).
Proof.
  destruct e as [|m|err]; cbn [ReadLogs.dispatch].
  - split; [now left|]. right. now exists (ReadLogs.message_id st).
  - destruct (on_message_record max_logs compiled_pattern m st)
      as [-> | (entry & Hadm & Hlogs & Hsent)]; cbv zeta in *.
    + split; now left.
    + split; [right; now exists entry | now left].
  - split; now left.
Qed.

(** X14: every record that [read_logs] returns passes the filter, is free
    of the marker of the unsupported client, and has a location only at the
    levels "error" and "warning"; and the only requests the capture sends
    are [Runtime.enable]. *)
Theorem read_logs_records (max_logs : Z)
    (compiled_pattern : option (string -> bool)) (events : list ws_event)
    (is_alive : bool) :
  Forall (admissible compiled_pattern)
    (ReadLogs.read_logs max_logs compiled_pattern events is_alive)
  /\ Forall (fun request => is_enable_request request = true)
       (ReadLogs.sent
          (ReadLogs.read_logs_end max_logs compiled_pattern events is_alive)).
Proof.
  set (good := fun st =>
         Forall (admissible compiled_pattern) (ReadLogs.logs st)
         /\ Forall (fun request => is_enable_request request = true)
              (ReadLogs.sent st)).
  assert (Hrun : forall evs st,
             good st ->
             good (ReadLogs.run_forever max_logs compiled_pattern evs st)).
  { induction evs as [|e evs IH]; intros st Hst;
      cbn [ReadLogs.run_forever]; [exact Hst|].
    destruct (ReadLogs.closed st); [exact Hst|].
    apply IH. destruct Hst as [Hlogs Hsent].
    destruct (dispatch_record max_logs compiled_pattern e st) as [Hl Hs].
    cbv zeta in *. split.
    - destruct Hl as [-> | (entry & Hadm & ->)]; [exact Hlogs|].
      apply Forall_app. split; [exact Hlogs|].
      constructor; [exact Hadm | constructor].
    - destruct Hs as [-> | (id & ->)]; [exact Hsent|].
      apply Forall_app. split; [exact Hsent|].
      constructor; [reflexivity | constructor]. }
  destruct (Hrun events ReadLogs.initial) as [Hlogs Hsent].
  { split; constructor. }
  unfold ReadLogs.read_logs, ReadLogs.read_logs_end. cbv zeta.
  destruct is_alive; split; assumption.
Qed.

Lemma run_forever_prefix (max_logs : Z)
    (compiled_pattern : option (string -> bool)) (events : list ws_event) :
  forall st,
    prefix_of (ReadLogs.logs st)
      (ReadLogs.logs (ReadLogs.run_forever max_logs compiled_pattern events st)).
Proof.
  induction events as [|e events IH]; intros st; cbn [ReadLogs.run_forever].
  - exists []. now rewrite app_nil_r.
  - destruct (ReadLogs.closed st).
    + exists []. now rewrite app_nil_r.
    + destruct (IH (ReadLogs.dispatch max_logs compiled_pattern e st))
        as [more Hmore].
      destruct (dispatch_record max_logs compiled_pattern e st) as [Hl _].
      cbv zeta in Hl. destruct Hl as [Hl | (entry & _ & Hl)];
        rewrite Hl in Hmore.
      * now exists more.
      * exists (entry :: more). now rewrite Hmore, <- app_assoc.
Qed.

(** X15: events that come later only add records at the end: what
    [read_logs] returns for some events is a prefix of what it returns for
    these events followed by more, and it has at most one record per
    event. *)
Theorem read_logs_grows (max_logs : Z)
    (compiled_pattern : option (string -> bool))
    (events more : list ws_event) (is_alive is_alive' : bool) :
  prefix_of (ReadLogs.read_logs max_logs compiled_pattern events is_alive)
    (ReadLogs.read_logs max_logs compiled_pattern (events ++ more) is_alive')
  /\ (List.length
        (ReadLogs.read_logs max_logs compiled_pattern events is_alive)
      <= List.length events)%nat.
Proof.
  split.
  - unfold ReadLogs.read_logs, ReadLogs.read_logs_end. cbv zeta.
    rewrite capture_app.
    destruct is_alive, is_alive'; cbn [ReadLogs.ws_close modify fst
                                        ReadLogs.logs];
      apply run_forever_prefix.
  - assert (Hrun : forall evs st,
               (List.length
                  (ReadLogs.logs
                     (ReadLogs.run_forever max_logs compiled_pattern evs st))
                <= List.length (ReadLogs.logs st) + List.length evs)%nat).
    { induction evs as [|e evs IH]; intros st; cbn [ReadLogs.run_forever].
      - lia.
      - destruct (ReadLogs.closed st); [lia|].
        specialize (IH (ReadLogs.dispatch max_logs compiled_pattern e st)).
        destruct (dispatch_record max_logs compiled_pattern e st) as [Hl _].
        cbv zeta in Hl. destruct Hl as [Hl | (entry & _ & Hl)];
          rewrite Hl in IH; try rewrite length_app in IH;
          cbn [List.length] in *; lia. }
    specialize (Hrun events ReadLogs.initial).
    unfold ReadLogs.read_logs, ReadLogs.read_logs_end. cbv zeta.
    destruct is_alive; cbn [ReadLogs.ws_close modify fst ReadLogs.logs];
      exact Hrun.
Qed.

(** ** The command lines *)

Lemma lstrip_by_all (drop : ascii -> bool) (s : string) :
  Text.all_chars drop s = true -> Text.lstrip_by drop s = "".
Proof.
  induction s as [|c s IH]; cbn [Text.all_chars Text.lstrip_by].
  - reflexivity.
  - intros H. apply andb_true_iff in H. destruct H as [Hc Hs].
    rewrite Hc. exact (IH Hs).
Qed.

(** X16: without an expression on the command line and with nothing but
    white space on stdin, [main] of execute_in_app.py exits with status 1 and
    its usage message, before it asks Metro or opens a socket. *)
Theorem execute_main_blank (urlopen : string -> Metro.response)
    (installed : bool) (socket : json -> list ws_event * bool)
    (a : ExecuteInAppCli.args) (stdin : string) :
  ExecuteInAppCli.expression a = None
  \/ ExecuteInAppCli.expression a = Some "" ->
  Text.all_chars Text.is_space stdin = true ->
  ExecuteInAppCli.main urlopen installed socket a stdin
  = Process.fail
      ["Error: No expression provided.";
       "Usage: execute_in_app.py 'expression' or pipe via stdin"].
Proof.
  intros Hexpr Hblank. unfold ExecuteInAppCli.main.
  assert (E : Text.strip stdin = "").
  { unfold Text.strip. now rewrite (lstrip_by_all _ _ Hblank). }
  destruct Hexpr as [-> | ->]; cbn [String.eqb]; now rewrite E.
Qed.

Lemma execute_main_blank_witness :
  ExecuteInAppCli.main MetroSample.urlopen true MetroSample.socket
    {| ExecuteInAppCli.expression := None;
       ExecuteInAppCli.app_id := None;
       ExecuteInAppCli.metro_url := "http://localhost:8081";
       ExecuteInAppCli.no_await := false;
       ExecuteInAppCli.timeout := Process.Waits;
       ExecuteInAppCli.as_json := false |}
    (String Py.newline "  ")
  = Process.fail
      ["Error: No expression provided.";
       "Usage: execute_in_app.py 'expression' or pipe via stdin"].
Proof.
  apply execute_main_blank; [now left | reflexivity].
Defined.

(** X17: without [--json], when [main] of execute_in_app.py ends with
    status 0 it has printed one item on stdout and nothing on stderr, and
    when it ends by [sys.exit(1)] it has printed nothing on stdout and a
    message on stderr. *)
Theorem execute_main_text (urlopen : string -> Metro.response)
    (installed : bool) (socket : json -> list ws_event * bool)
    (a : ExecuteInAppCli.args) (stdin : string) :
  ExecuteInAppCli.as_json a = false ->
  let r := ExecuteInAppCli.main urlopen installed socket a stdin in
  (Process.exit r = Process.Exit 0 ->
   Process.stderr r = [] /\ exists out, Process.stdout r = [out])
  /\ (Process.exit r = Process.Exit 1 ->
      Process.stdout r = [] /\ Process.stderr r <> []).
Proof.
  intros Hjson. unfold ExecuteInAppCli.main. cbv zeta.
  destruct (String.eqb _ "");
    [split; intros H; [discriminate H | now split]|].
  pose proof (resolve_app_ends (ExecuteInAppCli.discover_apps urlopen)
                (ExecuteInAppCli.app_id a) (ExecuteInAppCli.metro_url a)) as H.
  destruct (ExecuteInApp.resolve_app _ _ _) as [err [app|status]].
  - destruct H as [-> _].
    destruct (negb (truthy _));
      [split; intros H; [discriminate H | now split]|].
    unfold ExecuteInAppCli.ensure_websocket.
    destruct installed; [|split; intros H; [discriminate H | now split]].
    destruct (socket _) as [events is_alive].
    destruct (Process.join (ExecuteInAppCli.timeout a)) as [[]|e];
      [|split; intros H; discriminate H].
    rewrite Hjson. destruct (ExecuteInApp.success _).
    + split; intros H; [|discriminate H]. split; [reflexivity|now eexists].
    + split; intros H; [discriminate H | now split].
  - destruct H as [-> Hlen]. split; intros H; [discriminate H|].
    split; [reflexivity|].
    destruct err; [cbn in Hlen; lia | discriminate].
Qed.

Lemma execute_main_text_witness :
  exists out,
    Process.stdout
      (ExecuteInAppCli.main MetroSample.urlopen_one true MetroSample.socket
         {| ExecuteInAppCli.expression := Some "1+1";
            ExecuteInAppCli.app_id := None;
            ExecuteInAppCli.metro_url := "http://localhost:8081";
            ExecuteInAppCli.no_await := false;
            ExecuteInAppCli.timeout := Process.Waits;
            ExecuteInAppCli.as_json := false |} "")
    = [out].
Proof.
  apply (execute_main_text MetroSample.urlopen_one true MetroSample.socket
           {| ExecuteInAppCli.expression := Some "1+1";
              ExecuteInAppCli.app_id := None;
              ExecuteInAppCli.metro_url := "http://localhost:8081";
              ExecuteInAppCli.no_await := false;
              ExecuteInAppCli.timeout := Process.Waits;
              ExecuteInAppCli.as_json := false |} "" eq_refl).
  reflexivity.
Defined.



Lemma show_not_empty (logs : list ReadLogs.LogRecord) :
  logs <> [] -> flat_map ReadLogsCli.show logs <> [].
Proof.
  destruct logs as [|r logs]; [congruence|].
  intros _. cbn [flat_map ReadLogsCli.show List.app]. discriminate.
Qed.

Lemma printed_errors_shape (max_logs : Z)
    (compiled_pattern : option (string -> bool)) (events : list ws_event) :
  forall st,
    Forall (fun line => prefix "WebSocket error: " line = true)
      (ReadLogsCli.printed_errors max_logs compiled_pattern events st).
Proof.
  induction events as [|e events IH]; intros st;
    cbn [ReadLogsCli.printed_errors]; [constructor|].
  destruct (ReadLogs.closed st); [constructor|].
  apply Forall_app. split; [|apply IH].
  destruct e; repeat constructor.
  exact (prefix_app "WebSocket error: " err).
Qed.

(** X19: when [main] of read_logs.py ends with status 0, it has printed on
    stdout, and stderr holds the warnings of [re.compile] followed by
    nothing but the socket errors that [on_error] printed; when it ends by
    [sys.exit(1)], it has printed nothing on stdout and a message on
    stderr. *)
Theorem read_logs_main_outcome (urlopen : string -> Metro.response)
    (installed : bool)
    (re_compile : string -> list string * ReadLogsCli.compilation)
    (socket : json -> list ws_event * bool) (a : ReadLogsCli.args) :
  let r := ReadLogsCli.main urlopen installed re_compile socket a in
  (Process.exit r = Process.Exit 0 ->
   Process.stdout r <> []
   /\ exists errors,
        Process.stderr r
        = (fst (ReadLogsCli.compile re_compile (ReadLogsCli.filter a))
             ++ errors)%list
        /\ Forall (fun line => prefix "WebSocket error: " line = true) errors)
  /\ (Process.exit r = Process.Exit 1 ->
      Process.stdout r = [] /\ Process.stderr r <> []).
Proof.
  assert (Hrun : forall compiled_pattern events is_alive,
    let logs := ReadLogs.read_logs (ReadLogsCli.max_logs a) compiled_pattern
                  events is_alive in
    (if ReadLogsCli.as_json a
     then [dumps 2 (JList (map ReadLogsCli.entry_json logs))]
     else match logs with
          | [] => ["No logs received."]
          | _ => flat_map ReadLogsCli.show logs
          end) <> []).
  { intros compiled_pattern events is_alive logs.
    destruct (ReadLogsCli.as_json a); [discriminate|].
    destruct logs eqn:E; [discriminate|].
    apply show_not_empty. discriminate. }
  assert (Hcompile : forall warnings t,
    ReadLogsCli.compile re_compile (ReadLogsCli.filter a)
    = (warnings, ReadLogsCli.Fails t) ->
    t <> Process.Exit 0 /\ t <> Process.Exit 1).
  { intros warnings t. unfold ReadLogsCli.compile.
    destruct (ReadLogsCli.filter a) as [pattern|]; [|discriminate].
    destruct (String.eqb pattern ""); [discriminate|].
    destruct (re_compile pattern) as [w [search| |e]]; intros H;
      inversion H; subst; split; discriminate. }
  unfold ReadLogsCli.main. cbv zeta.
  pose proof (resolve_app_ends (ReadLogsCli.discover_apps urlopen)
                (ReadLogsCli.app_id a) (ReadLogsCli.metro_url a)) as H.
  change ReadLogs.resolve_app with ExecuteInApp.resolve_app.
  destruct (ExecuteInApp.resolve_app _ _ _) as [err [app|status]].
  - destruct H as [-> _].
    destruct (negb (truthy _));
      [split; intros H; [discriminate H | now split]|].
    unfold ReadLogsCli.ensure_websocket.
    destruct installed; [|split; intros H; [discriminate H | now split]].
    destruct (ReadLogsCli.compile re_compile (ReadLogsCli.filter a))
      as [warnings [compiled_pattern|t]] eqn:C.
    + destruct (socket _) as [events is_alive].
      destruct (Process.join (ReadLogsCli.timeout a)) as [[]|e];
        [|split; intros H; discriminate H].
      split; intros H; [|discriminate H].
      split; [apply Hrun|].
      eexists. split; [reflexivity|]. apply printed_errors_shape.
    + destruct (Hcompile warnings t eq_refl) as [H0 H1].
      split; intros H; cbn in H; congruence.
  - destruct H as [-> Hlen]. split; intros H; [discriminate H|].
    split; [reflexivity|].
    destruct err; [cbn in Hlen; lia | discriminate].
Qed.

Lemma read_logs_main_outcome_witness :
  Process.stdout
    (ReadLogsCli.main MetroSample.urlopen_one true
       (fun _ => ([], ReadLogsCli.ReError))
       MetroSample.silent_socket
       {| ReadLogsCli.app_id := None;
          ReadLogsCli.metro_url := "http://localhost:8081";
          ReadLogsCli.max_logs := 100;
          ReadLogsCli.filter := None;
          ReadLogsCli.timeout := Process.Waits;
          ReadLogsCli.as_json := true |})
  <> [].
Proof.
  apply (read_logs_main_outcome MetroSample.urlopen_one true
           (fun _ => ([], ReadLogsCli.ReError))
           MetroSample.silent_socket
           {| ReadLogsCli.app_id := None;
              ReadLogsCli.metro_url := "http://localhost:8081";
              ReadLogsCli.max_logs := 100;
              ReadLogsCli.filter := None;
              ReadLogsCli.timeout := Process.Waits;
              ReadLogsCli.as_json := true |}).
  reflexivity.
Defined.

(** X20: when a capture whose filter compiles gathers no record, be it that
    the wait ran out, [main] of read_logs.py ends with status 0 and prints on
    stdout "No logs received.", or the empty array with [--json]. *)
Theorem read_logs_main_no_logs (urlopen : string -> Metro.response)
    (re_compile : string -> list string * ReadLogsCli.compilation)
    (socket : json -> list ws_event * bool) (a : ReadLogsCli.args)
    (app : dict) (warnings : list string)
    (compiled_pattern : option (string -> bool))
    (events : list ws_event) (is_alive : bool) :
  ReadLogs.resolve_app (ReadLogsCli.discover_apps urlopen)
    (ReadLogsCli.app_id a) (ReadLogsCli.metro_url a)
  = ([], Return app) ->
  truthy (get "webSocketDebuggerUrl" app) = true ->
  ReadLogsCli.compile re_compile (ReadLogsCli.filter a)
  = (warnings, ReadLogsCli.Pattern compiled_pattern) ->
  socket (get "webSocketDebuggerUrl" app) = (events, is_alive) ->
  Process.join (ReadLogsCli.timeout a) = Ok tt ->
  ReadLogs.read_logs (ReadLogsCli.max_logs a) compiled_pattern events is_alive
  = [] ->
  let r := ReadLogsCli.main urlopen true re_compile socket a in
  Process.stdout r = [if ReadLogsCli.as_json a then "[]"
                      else "No logs received."]
  /\ Process.exit r = Process.Exit 0.
Proof.
  intros Happ Hurl Hcompile Hsocket Hjoin Hlogs.
  unfold ReadLogsCli.main. cbv zeta.
  rewrite Happ, Hurl. cbn [negb ReadLogsCli.ensure_websocket].
  rewrite Hcompile, Hsocket, Hjoin, Hlogs.
  now destruct (ReadLogsCli.as_json a).
Qed.

Lemma read_logs_main_no_logs_witness :
  Process.stdout
    (ReadLogsCli.main MetroSample.urlopen_one true
       (fun _ => ([], ReadLogsCli.ReError))
       MetroSample.silent_socket
       {| ReadLogsCli.app_id := None;
          ReadLogsCli.metro_url := "http://localhost:8081";
          ReadLogsCli.max_logs := 100;
          ReadLogsCli.filter := None;
          ReadLogsCli.timeout := Process.Waits;
          ReadLogsCli.as_json := false |})
  = ["No logs received."].
Proof.
  apply (read_logs_main_no_logs MetroSample.urlopen_one
           (fun _ => ([], ReadLogsCli.ReError))
           MetroSample.silent_socket
           {| ReadLogsCli.app_id := None;
              ReadLogsCli.metro_url := "http://localhost:8081";
              ReadLogsCli.max_logs := 100;
              ReadLogsCli.filter := None;
              ReadLogsCli.timeout := Process.Waits;
              ReadLogsCli.as_json := false |}
           MetroSample.flagged_app [] None [Opened] true); reflexivity.
Defined.

(** X21: the timeout never replaces an outcome: when the wait runs out on a
    session that has the success flag set or an error that is true in
    Python, [execute_in_app] returns the result of this session as it is. *)
Theorem timeout_keeps_outcome (expression : string) (await_promise : bool)
    (events : list ws_event) :
  let st := ExecuteInApp.run_forever expression await_promise events
              ExecuteInApp.initial in
  ExecuteInApp.success (ExecuteInApp.result st) = true
  \/ truthy (ExecuteInApp.error (ExecuteInApp.result st)) = true ->
  ExecuteInApp.execute_in_app expression await_promise events true
  = ExecuteInApp.result st.
Proof.
  intros st H.
  unfold ExecuteInApp.execute_in_app, ExecuteInApp.execute_in_app_end.
  cbv zeta. fold st.
  destruct st as [[success output error] id enabled sent closed].
  cbn in H |- *. destruct H as [-> | ->]; [reflexivity|].
  now rewrite andb_false_r.
Qed.

(** A socket error before the wait runs out stays the error. *)
Lemma timeout_keeps_outcome_witness :
  ExecuteInApp.execute_in_app "1+1" true [Opened; Failed "reset"] true
  = {| ExecuteInApp.success := false;
       ExecuteInApp.output := JNull;
       ExecuteInApp.error := JStr "WebSocket error: reset" |}.
Proof.
  apply (timeout_keeps_outcome "1+1" true [Opened; Failed "reset"]).
  now right.
Defined.
